(** * process_portraits.py: background classifier, auto-corrector and
      grid layout planner

    A shallow embedding of [src/process_portraits.py].

    Numbers.  Python computes the channel averages, the page geometry and
    the cell sizes with binary floating point.  The embedding uses exact
    rationals ([Q]) for all of them, so every statement below is a statement
    about the exact-arithmetic reading of the program; rounding of the last
    binary digit is not modelled.  Integers ([len], grid columns and rows,
    pixel channels) are [Z].

    Exceptions.  A Python exception is the [Raise] branch of [result]; a
    [try ... except Exception] block is a match on it.  The two [while]
    loops of the planner run on an iteration budget; [OutOfFuel] is the
    outcome of a loop whose budget is used up. *)

From Stdlib Require Import ZArith QArith Qround Qabs Qminmax Lia Lqa Ascii String.
From stdpp Require Import base option list sorting gmap strings.

Local Open Scope Z_scope.

(** ** Exceptions and the error monad *)

Inductive exn : Type :=
| ZeroDivisionError
| ValueError
| IndexError
| FileNotFoundError
| PermissionError
| UnidentifiedImageError.

Inductive result (A : Type) : Type :=
| Ok (a : A)
| Raise (e : exn)
| OutOfFuel.
Arguments Ok {A} a.
Arguments Raise {A} e.
Arguments OutOfFuel {A}.

#[global] Instance result_bind : MBind result :=
  fun A B (k : A -> result B) (m : result A) =>
    match m with
    | Ok a => k a
    | Raise e => Raise e
    | OutOfFuel => OutOfFuel
    end.

(** ** Rational helpers *)

Definition Qlt_bool (x y : Q) : bool := negb (Qle_bool y x).

(** Python's [int(x)] on a float: truncation toward zero. *)
Definition int (x : Q) : Z := Z.quot (Qnum x) (Zpos (Qden x)).

(** Python's [a / b] on two integers: true division, [ZeroDivisionError]
    when [b] is zero. *)
Definition truediv (a b : Z) : result Q :=
  if b =? 0 then Raise ZeroDivisionError else Ok (inject_Z a / inject_Z b)%Q.

(** ** Images *)

Definition pixel : Type := Z * Z * Z.

(** What [Image.open] yields: the size and the pixels after conversion to
    RGB, in row-major order, top row first (PIL's [getdata]). *)
Record image : Type := Image {
  width : Z;
  height : Z;
  getdata : list pixel
}.

(** [img.crop((0, height - bottom_height, width, height)).getdata()]: the last
    [bottom_height] rows. *)
Definition crop_bottom (img : image) (bottom_height : Z) : list pixel :=
  drop (Z.to_nat (width img * (height img - bottom_height))) (getdata img).

(** [int(height * 0.05)].  For a height below 2^50 this is the integer
    quotient by 20: the product is off from [height / 20] by less than half
    a unit in the last place. *)
Definition bottom_height_of (img : image) : Z := int (inject_Z (height img) * (5 # 100))%Q.

Definition bottom_pixels (img : image) : list pixel :=
  crop_bottom img (bottom_height_of img).

Definition channel_sums (pixels : list pixel) : Z * Z * Z :=
  fold_left (fun '(r_sum, g_sum, b_sum) '(r, g, b) => (r_sum + r, g_sum + g, b_sum + b))
            pixels (0, 0, 0).

(** ** 4.1 Background classifier: [get_bottom_color] *)

Inductive label : Type := Green | Orange | Unknown.

Definition MIN_DIFF : Q := 5.
Definition MIN_VALUE : Q := 100.

(** Lines 76-96: the rule chain on the three averages. *)
Definition classify (avg_r avg_g avg_b : Q) : label :=
  let r_g_diff := (avg_g - avg_r)%Q in
  if Qle_bool MIN_DIFF r_g_diff && Qlt_bool avg_b avg_g && Qlt_bool MIN_VALUE avg_g
  then Green
  else if Qle_bool r_g_diff (- MIN_DIFF) && Qlt_bool avg_b avg_r && Qlt_bool MIN_VALUE avg_r
  then Orange
  else if Qlt_bool (Qabs r_g_diff) MIN_DIFF
  then
    let saturation := (Qmin avg_r avg_g - avg_b)%Q in
    if Qlt_bool 30 saturation
    then if Qle_bool (avg_r - 2) avg_g then Green else Orange
    else Unknown
  else Unknown.

(** Lines 58-96 on the pixels of the bottom band. *)
Definition color_of_pixels (pixels : list pixel) : result (label * (Z * Z * Z)) :=
  let '(r_sum, g_sum, b_sum) := channel_sums pixels in
  let pixel_count := Z.of_nat (length pixels) in
  avg_r ← truediv r_sum pixel_count;
  avg_g ← truediv g_sum pixel_count;
  avg_b ← truediv b_sum pixel_count;
  Ok (classify avg_r avg_g avg_b, (int avg_r, int avg_g, int avg_b)).

(** The file store: the paths [Image.open] can decode, with their image.
    A path that is absent cannot be opened. *)
Definition Image_open (images : gmap string image) (image_path : string) : result image :=
  match images !! image_path with
  | Some img => Ok img
  | None => Raise UnidentifiedImageError
  end.

Definition get_bottom_color (images : gmap string image) (image_path : string)
  : result (label * (Z * Z * Z)) :=
  img ← Image_open images image_path;
  color_of_pixels (bottom_pixels img).

(** ** 3. The grouping artifact [portrait_groups.json] *)

Record stats : Type := Stats {
  green_count : Z;
  orange_count : Z;
  unknown_count : Z;
  total : Z
}.

Record groups : Type := Groups {
  green_group : list string;
  orange_group : list string;
  unknown_group : list string;
  group_stats : stats
}.

(** ** The file system

    [folders] maps each existing batch folder to the paths that
    [glob('*.png')] lists in it, [images] maps the paths that decode to
    their image, [artifacts] maps a folder to the content of its
    [portrait_groups.json], [read_only] holds the folders in which no file
    can be created or rewritten, and [pdfs] the files saved so far. *)

Inductive draw : Type :=
| DrawTitle (x y : Q) (text : string)
| DrawTotal (x y : Q) (total_images : Z)
| DrawImage (img_path : string) (x y w h : Q).

(** A [reportlab] canvas: the page being drawn and the pages shown so far. *)
Record canvas : Type := Canvas {
  pagesize : Q * Q;
  current_page : list draw;
  pages : list (list draw)
}.

Record world : Type := World {
  folders : gmap string (list string);
  images : gmap string image;
  artifacts : gmap string groups;
  read_only : gset string;
  pdfs : list (string * canvas)
}.

(** [open(json_file, 'r')] followed by [json.load]. *)
Definition read_artifact (w : world) (year_folder : string) : result groups :=
  match artifacts w !! year_folder with
  | Some g => Ok g
  | None => Raise FileNotFoundError
  end.

Definition set_artifact (w : world) (year_folder : string) (g : groups) : world :=
  {| folders := folders w; images := images w;
     artifacts := <[year_folder := g]> (artifacts w);
     read_only := read_only w; pdfs := pdfs w |}.

(** [open(json_file, 'w')] followed by [json.dump]: the folder has to exist
    and to be writable. *)
Definition write_artifact (w : world) (year_folder : string) (g : groups) : result world :=
  match folders w !! year_folder with
  | None => Raise FileNotFoundError
  | Some _ =>
    if decide (year_folder ∈ read_only w) then Raise PermissionError
    else Ok (set_artifact w year_folder g)
  end.

(** [year_path.glob('*.png')]: nothing for a folder that does not exist. *)
Definition glob_png (w : world) (year_folder : string) : list string :=
  default [] (folders w !! year_folder).

(** ** 4.2 Batch analyzer: [analyze_portraits] *)

(** One turn of the loop of lines 121-140 on the three lists. *)
Definition analyze_one (imgs : gmap string image)
    (acc : list string * list string * list string) (png_file : string)
  : list string * list string * list string :=
  let '(green, orange, unknown) := acc in
  match get_bottom_color imgs png_file with
  | Ok (Green, _) => (green ++ [png_file], orange, unknown)
  | Ok (Orange, _) => (green, orange ++ [png_file], unknown)
  | Ok (Unknown, _) => (green, orange, unknown ++ [png_file])
  | _ => (green, orange, unknown ++ [png_file])
  end.

Definition analyze_portraits (w : world) (year_folder : string) : result (world * groups) :=
  let png_files := glob_png w year_folder in
  let '(green, orange, unknown) := fold_left (analyze_one (images w)) png_files ([], [], []) in
  let results :=
    {| green_group := green; orange_group := orange; unknown_group := unknown;
       group_stats := {| green_count := Z.of_nat (length green);
                         orange_count := Z.of_nat (length orange);
                         unknown_count := Z.of_nat (length unknown);
                         total := Z.of_nat (length png_files) |} |} in
  w' ← write_artifact w year_folder results;
  Ok (w', results).

(** ** 4.3 Auto-corrector: [apply_auto_corrections] *)

(** The body of the [try] of lines 368-386: [avg_g - avg_r] on the bottom
    band of one file. *)
Definition band_diff (imgs : gmap string image) (img_path : string) : result Q :=
  img ← Image_open imgs img_path;
  let pixels := bottom_pixels img in
  let '(r_sum, g_sum, b_sum) := channel_sums pixels in
  avg_r ← truediv r_sum (Z.of_nat (length pixels));
  avg_g ← truediv g_sum (Z.of_nat (length pixels));
  Ok (avg_g - avg_r)%Q.

(** One turn of the loop of lines 366-395 on [to_move]. *)
Definition scan_one (imgs : gmap string image) (threshold : Q)
    (to_move : list string) (img_path : string) : list string :=
  match band_diff imgs img_path with
  | Ok diff => if Qle_bool threshold diff then to_move ++ [img_path] else to_move
  | _ => to_move
  end.

(** [list.remove(x)]: drops the first element equal to [x], [ValueError]
    when there is none. *)
Fixpoint list_remove (x : string) (l : list string) : result (list string) :=
  match l with
  | [] => Raise ValueError
  | y :: l' =>
    if decide (y = x) then Ok l'
    else l'' ← list_remove x l'; Ok (y :: l'')
  end.

(** One turn of the loop of lines 398-400 on the two lists. *)
Definition move_one (acc : result (list string * list string)) (img_path : string)
  : result (list string * list string) :=
  '(green, orange) ← acc;
  orange' ← list_remove img_path orange;
  Ok (green ++ [img_path], orange').

(** The order of [list.sort()] on paths: lexicographic on the characters. *)
Definition path_le (p q : string) : Prop := String.leb p q = true.

#[global] Instance path_le_dec (p q : string) : Decision (path_le p q).
Proof. unfold path_le. apply _. Defined.

(** [list.sort()]: the sorted rearrangement of the list.  On a total order
    without distinct equivalent elements that rearrangement is unique, so
    any sorting algorithm computes it. *)
Definition list_sort (l : list string) : list string := merge_sort path_le l.

(** Lines 363-406 on the loaded artifact: the new artifact and [to_move]. *)
Definition correct_groups (imgs : gmap string image) (threshold : Q) (g : groups)
  : result (groups * list string) :=
  let to_move := fold_left (scan_one imgs threshold) (orange_group g) [] in
  '(green, orange) ← fold_left move_one to_move (Ok (green_group g, orange_group g));
  let st := {| green_count := Z.of_nat (length green);
               orange_count := Z.of_nat (length orange);
               unknown_count := unknown_count (group_stats g);
               total := total (group_stats g) |} in
  Ok ({| green_group := list_sort green; orange_group := list_sort orange;
         unknown_group := unknown_group g; group_stats := st |}, to_move).

Definition apply_auto_corrections (w : world) (year_folder : string) (threshold : Q)
  : result (world * Z) :=
  g ← read_artifact w year_folder;
  '(g', to_move) ← correct_groups (images w) threshold g;
  w' ← write_artifact w year_folder g';
  Ok (w', Z.of_nat (length to_move)).

(** ** 4.4 Grid layout planner *)

(** [reportlab.lib.units] and [reportlab.lib.pagesizes]: lengths in points
    of 1/72 inch, A4 is 210 mm by 297 mm. *)
Definition inch : Q := 72.
Definition cm : Q := inch / (254 # 100).
Definition mm : Q := cm * (1 # 10).
Definition A4 : Q * Q := (210 * mm, 297 * mm)%Q.

Definition landscape (pagesize : Q * Q) : Q * Q :=
  let '(a, b) := pagesize in
  if Qlt_bool a b then (b, a) else (a, b).

Definition margin : Q := 20.
Definition title_height : Q := 30.
Definition spacing : Q := 5.

Definition available_width (pagesize : Q * Q) : Q := (fst pagesize - 2 * margin)%Q.
Definition available_height (pagesize : Q * Q) : Q :=
  (snd pagesize - 2 * margin - title_height)%Q.

(** [math.ceil(x)]. *)
Definition ceil (x : Q) : Z := Qceiling x.

(** [math.ceil(math.sqrt(n) * math.sqrt(a))] over the reals, as a function of
    [x = n * a]: the least [c >= 0] with [x <= c * c].  The planner calls it
    with [n >= 1] and a positive [a] only, so [x] is positive there. *)
Definition ceil_sqrt (x : Q) : Z :=
  let m := Qceiling x in
  if m <=? 0 then 0
  else let s := Z.sqrt m in if s * s =? m then s else s + 1.

(** [math.ceil(total_images / cols)]. *)
Definition ceil_div (total_images cols : Z) : result Z :=
  q ← truediv total_images cols;
  Ok (ceil q).

(** Lines 194-197 and 277-282. *)
Definition initial_grid (pagesize : Q * Q) (total_images : Z) : result (Z * Z) :=
  let page_aspect := (available_width pagesize / available_height pagesize)%Q in
  let cols := ceil_sqrt (inject_Z total_images * page_aspect) in
  rows ← ceil_div total_images cols;
  Ok (cols, rows).

(** Lines 200-205: [while cols > rows]. *)
Fixpoint portrait_loop (fuel : nat) (total_images cols rows : Z) : result (Z * Z) :=
  if rows <? cols then
    match fuel with
    | O => OutOfFuel
    | S fuel' =>
      let cols := cols - 1 in
      if cols <? 1 then Ok (1, rows)
      else rows ← ceil_div total_images cols;
           portrait_loop fuel' total_images cols rows
    end
  else Ok (cols, rows).

(** Lines 285-287: [while rows > cols / 1.5]. *)
Fixpoint landscape_loop (fuel : nat) (total_images cols rows : Z) : result (Z * Z) :=
  if Qlt_bool (inject_Z cols / (15 # 10)) (inject_Z rows) then
    match fuel with
    | O => OutOfFuel
    | S fuel' =>
      let cols := cols + 1 in
      rows ← ceil_div total_images cols;
      landscape_loop fuel' total_images cols rows
    end
  else Ok (cols, rows).

(** The grid of each orientation.  The budget of the portrait loop is the
    initial column count, which every turn decrements; that of the
    landscape loop is [max total_images 2], a column count at which the
    loop condition is false. *)
Definition portrait_grid (total_images : Z) : result (Z * Z) :=
  '(cols, rows) ← initial_grid A4 total_images;
  portrait_loop (Z.to_nat cols) total_images cols rows.

Definition landscape_grid (total_images : Z) : result (Z * Z) :=
  '(cols, rows) ← initial_grid (landscape A4) total_images;
  landscape_loop (Z.to_nat (Z.max total_images 2)) total_images cols rows.

Record layout : Type := Layout {
  cols : Z;
  rows : Z;
  img_width : Q;
  img_height : Q
}.

(** Lines 210-219 and 292-304 (the same text in both functions): the cell
    size for a grid and the aspect ratio of the sample image. *)
Definition cell_size (pagesize : Q * Q) (grid : Z * Z) (aspect_ratio : Q) : result layout :=
  let '(cols, rows) := grid in
  let img_width :=
    ((available_width pagesize - (inject_Z cols - 1) * spacing) / inject_Z cols)%Q in
  let img_height := (img_width * aspect_ratio)%Q in
  let total_height_needed := (img_height * inject_Z rows + (inject_Z rows - 1) * spacing)%Q in
  if Qlt_bool (available_height pagesize) total_height_needed then
    let img_height :=
      ((available_height pagesize - (inject_Z rows - 1) * spacing) / inject_Z rows)%Q in
    if Qeq_bool aspect_ratio 0 then Raise ZeroDivisionError
    else Ok {| cols := cols; rows := rows;
               img_width := (img_height / aspect_ratio)%Q; img_height := img_height |}
  else Ok {| cols := cols; rows := rows; img_width := img_width; img_height := img_height |}.

(** [sample_img.height / sample_img.width] of the first image; the open is
    outside any [try]. *)
Definition sample_aspect_ratio (imgs : gmap string image) (image_paths : list string)
  : result Q :=
  match image_paths with
  | [] => Raise IndexError
  | first :: _ =>
    sample_img ← Image_open imgs first;
    truediv (height sample_img) (width sample_img)
  end.

Definition plan_portrait (imgs : gmap string image) (image_paths : list string)
  : result layout :=
  grid ← portrait_grid (Z.of_nat (length image_paths));
  aspect_ratio ← sample_aspect_ratio imgs image_paths;
  cell_size A4 grid aspect_ratio.

Definition plan_landscape (imgs : gmap string image) (image_paths : list string)
  : result layout :=
  grid ← landscape_grid (Z.of_nat (length image_paths));
  aspect_ratio ← sample_aspect_ratio imgs image_paths;
  cell_size (landscape A4) grid aspect_ratio.

(** ** 4.5 Renderer *)

Definition Canvas_new (size : Q * Q) : canvas :=
  {| pagesize := size; current_page := []; pages := [] |}.

Definition draw_on (c : canvas) (d : draw) : canvas :=
  {| pagesize := pagesize c; current_page := current_page c ++ [d]; pages := pages c |}.

Definition showPage (c : canvas) : canvas :=
  {| pagesize := pagesize c; current_page := []; pages := pages c ++ [current_page c] |}.

(** [Canvas.save]: a page with pending drawing is shown first. *)
Definition save (c : canvas) : canvas :=
  match current_page c with
  | [] => c
  | _ :: _ => showPage c
  end.

(** One turn of the loop of lines 230-243 and 318-334; [idx] counts from 0.
    An image that does not open leaves its cell blank. *)
Definition place_image (imgs : gmap string image) (size : Q * Q) (l : layout)
    (acc : canvas * Z) (img_path : string) : canvas * Z :=
  let '(c, idx) := acc in
  let row := idx / cols l in
  let col := idx mod cols l in
  let y_start := (snd size - margin - title_height)%Q in
  let x_pos := (margin + inject_Z col * (img_width l + spacing))%Q in
  let y_pos_img :=
    (y_start - inject_Z row * (img_height l + spacing) - img_height l)%Q in
  match Image_open imgs img_path with
  | Ok _ => (draw_on c (DrawImage img_path x_pos y_pos_img (img_width l) (img_height l)), idx + 1)
  | _ => (c, idx + 1)
  end.

(** Lines 222-246 and 307-337: the canvas that is saved. *)
Definition render (imgs : gmap string image) (size : Q * Q) (l : layout)
    (image_paths : list string) (title : string) : canvas :=
  let c := Canvas_new size in
  let c := draw_on c (DrawTitle margin (snd size - margin) title) in
  let c := draw_on c (DrawTotal margin (snd size - margin - 15)
                                (Z.of_nat (length image_paths))) in
  let '(c, _) := fold_left (place_image imgs size l) image_paths (c, 0) in
  save (showPage c).

Definition write_pdf (w : world) (output_pdf : string) (c : canvas) : world :=
  {| folders := folders w; images := images w; artifacts := artifacts w;
     read_only := read_only w; pdfs := pdfs w ++ [(output_pdf, c)] |}.

Definition create_collage_pdf_portrait (w : world) (image_paths : list string)
    (output_pdf title : string) : result world :=
  match image_paths with
  | [] => Ok w
  | _ :: _ =>
    l ← plan_portrait (images w) image_paths;
    Ok (write_pdf w output_pdf (render (images w) A4 l image_paths title))
  end.

Definition create_collage_pdf_landscape (w : world) (image_paths : list string)
    (output_pdf title : string) : result world :=
  match image_paths with
  | [] => Ok w
  | _ :: _ =>
    l ← plan_landscape (images w) image_paths;
    Ok (write_pdf w output_pdf
          (render (images w) (landscape A4) l image_paths title))
  end.

(** ** [process_year] and the loop of [main] *)

Inductive orientation : Type := Portrait | Landscape | Both.

(** [str.lower] on the letters A to Z; other characters are kept. *)
Definition ascii_lower (c : ascii) : ascii :=
  let n := nat_of_ascii c in
  if ((65 <=? n) && (n <=? 90))%nat then ascii_of_nat (n + 32) else c.

Fixpoint str_lower (s : string) : string :=
  match s with
  | EmptyString => EmptyString
  | String c s' => String (ascii_lower c) (str_lower s')
  end.

(** [output_path / f'{stem}_{year_code.lower()}{suffix}.pdf']. *)
Definition pdf_name (output_folder stem year_code suffix : string) : string :=
  (output_folder +:+ "/" +:+ stem +:+ "_" +:+ str_lower year_code +:+ suffix +:+ ".pdf")%string.

(** Lines 456-472 for [create := create_collage_pdf_portrait] and
    lines 476-492 for [create := create_collage_pdf_landscape]. *)
Definition collages_of (create : world -> list string -> string -> string -> result world)
    (w : world) (results : groups) (output_folder year_code suffix : string)
  : result world :=
  w ← match green_group results with
      | [] => Ok w
      | _ :: _ =>
        create w (green_group results)
               (pdf_name output_folder "speldesignstudenter" year_code suffix)
               ("Speldesignstudenter " +:+ year_code)%string
      end;
  match orange_group results with
  | [] => Ok w
  | _ :: _ =>
    create w (orange_group results)
           (pdf_name output_folder "spelgrafikstudenter" year_code suffix)
           ("Spelgrafikstudenter " +:+ year_code)%string
  end.

Definition process_year (w : world) (year_folder year_code output_folder : string)
    (auto_correct : bool) (threshold : Q) (o : orientation) : result world :=
  '(w, results) ← analyze_portraits w year_folder;
  '(w, results) ←
    (if auto_correct then
       '(w, moved) ← apply_auto_corrections w year_folder threshold;
       if 0 <? moved then
         results ← read_artifact w year_folder; Ok (w, results)
       else Ok (w, results)
     else Ok (w, results));
  w ← match o with
      | Portrait => collages_of create_collage_pdf_portrait w results output_folder year_code ""
      | Both => collages_of create_collage_pdf_portrait w results output_folder year_code "_portrait"
      | Landscape => Ok w
      end;
  match o with
  | Landscape => collages_of create_collage_pdf_landscape w results output_folder year_code ""
  | Both => collages_of create_collage_pdf_landscape w results output_folder year_code "_landscape"
  | Portrait => Ok w
  end.

(** Lines 560-579: the loop of [main] over [years_to_process], the list
    that lines 547-557 build from the command line.  The two [continue]
    branches skip a batch; the call of [process_year] stands in no [try]. *)
Fixpoint main_loop (w : world) (years_to_process : list (string * string))
    (output_folder : string) (auto_correct : bool) (threshold : Z) (o : orientation)
  : result world :=
  match years_to_process with
  | [] => Ok w
  | (year_folder, year_num) :: rest =>
    match folders w !! year_folder with
    | None => main_loop w rest output_folder auto_correct threshold o
    | Some [] => main_loop w rest output_folder auto_correct threshold o
    | Some (_ :: _) =>
      w ← process_year w year_folder year_folder output_folder auto_correct
            (inject_Z threshold) o;
      main_loop w rest output_folder auto_correct threshold o
    end
  end.

(** ** The classification rule of the specification (4.1, rules 1 to 5)

    Written from the words of the rule chain, as a relation between the
    three averages and the label. *)

Definition green_rule (avg_r avg_g avg_b : Q) : Prop :=
  (5 <= avg_g - avg_r /\ avg_b < avg_g /\ 100 < avg_g)%Q.

Definition orange_rule (avg_r avg_g avg_b : Q) : Prop :=
  (avg_g - avg_r <= -(5) /\ avg_b < avg_r /\ 100 < avg_r)%Q.

Definition saturated_tie (avg_r avg_g avg_b : Q) : Prop :=
  (Qabs (avg_g - avg_r) < 5 /\ 30 < Qmin avg_r avg_g - avg_b)%Q.

Inductive rule_chain (avg_r avg_g avg_b : Q) : label -> Prop :=
| chain_green :
    green_rule avg_r avg_g avg_b ->
    rule_chain avg_r avg_g avg_b Green
| chain_orange :
    ~ green_rule avg_r avg_g avg_b ->
    orange_rule avg_r avg_g avg_b ->
    rule_chain avg_r avg_g avg_b Orange
| chain_tie_green :
    ~ green_rule avg_r avg_g avg_b ->
    ~ orange_rule avg_r avg_g avg_b ->
    saturated_tie avg_r avg_g avg_b ->
    (avg_r - 2 <= avg_g)%Q ->
    rule_chain avg_r avg_g avg_b Green
| chain_tie_orange :
    ~ green_rule avg_r avg_g avg_b ->
    ~ orange_rule avg_r avg_g avg_b ->
    saturated_tie avg_r avg_g avg_b ->
    ~ (avg_r - 2 <= avg_g)%Q ->
    rule_chain avg_r avg_g avg_b Orange
| chain_unknown :
    ~ green_rule avg_r avg_g avg_b ->
    ~ orange_rule avg_r avg_g avg_b ->
    ~ saturated_tie avg_r avg_g avg_b ->
    rule_chain avg_r avg_g avg_b Unknown.

(** ** Channel averages and rounding, for the statements about 4.1 *)

(** The three means of [get_bottom_color], lines 68-70. *)
Definition band_averages (pixels : list pixel) : Q * Q * Q :=
  let '(r_sum, g_sum, b_sum) := channel_sums pixels in
  let pixel_count := inject_Z (Z.of_nat (length pixels)) in
  (inject_Z r_sum / pixel_count, inject_Z g_sum / pixel_count,
   inject_Z b_sum / pixel_count)%Q.

(** An RGB pixel of 8 bits per channel. *)
Definition valid_pixel (p : pixel) : Prop :=
  let '(r, g, b) := p in 0 <= r <= 255 /\ 0 <= g <= 255 /\ 0 <= b <= 255.



(** A 4 by 20 image: 19 black rows over a bottom row of reddish pixels
    whose red mean is 200.75. *)
Definition reddish_band : list pixel :=
  [(201, 100, 50); (201, 100, 50); (201, 100, 50); (200, 100, 50)].

Definition reddish_image : image :=
  {| width := 4; height := 20; getdata := replicate 76 (0, 0, 0) ++ reddish_band |}.

(** ** The members the corrector has to move (4.3)

    Written from the words of the specification: a member qualifies when
    its file opens, its bottom band has a mean, and the recomputed
    [avg_g - avg_r] reaches the threshold. *)
Definition qualifies (imgs : gmap string image) (threshold : Q) (img_path : string) : Prop :=
  match imgs !! img_path with
  | Some img =>
    bottom_pixels img <> []
    /\ (let '(avg_r, avg_g, _) := band_averages (bottom_pixels img) in
        threshold <= avg_g - avg_r)%Q
  | None => False
  end.

#[global] Instance qualifies_dec (imgs : gmap string image) (threshold : Q) (img_path : string) :
  Decision (qualifies imgs threshold img_path).
Proof.
  unfold qualifies. destruct (imgs !! img_path) as [img |]; [| right; tauto].
  destruct (band_averages (bottom_pixels img)) as [[avg_r avg_g] avg_b].
  destruct (decide (bottom_pixels img = [])) as [E | E]; [right; tauto |].
  destruct (Qlt_le_dec (avg_g - avg_r) threshold) as [L | L].
  - right. intros [_ H]. exact (Qlt_not_le _ _ L H).
  - left. split; assumption.
Defined.

Definition moved_members (imgs : gmap string image) (threshold : Q) (g : groups)
  : list string :=
  filter (qualifies imgs threshold) (orange_group g).

Definition kept_members (imgs : gmap string image) (threshold : Q) (g : groups)
  : list string :=
  filter (fun p => ~ qualifies imgs threshold p) (orange_group g).

(** The artifact after the corrector, in closed form: the qualifying members
    appended to GREEN and taken out of ORANGE, both sorted, the two counts
    recomputed. *)
Definition corrected (imgs : gmap string image) (threshold : Q) (g : groups) : groups :=
  {| green_group := list_sort (green_group g ++ moved_members imgs threshold g);
     orange_group := list_sort (kept_members imgs threshold g);
     unknown_group := unknown_group g;
     group_stats :=
       {| green_count := Z.of_nat (length (green_group g ++ moved_members imgs threshold g));
          orange_count := Z.of_nat (length (kept_members imgs threshold g));
          unknown_count := unknown_count (group_stats g);
          total := total (group_stats g) |} |}.

(** The counts of the two moving collections are their sizes and the four
    numbers add up (3, GroupingResult). *)
Definition counts_add_up (g : groups) : Prop :=
  green_count (group_stats g) = Z.of_nat (length (green_group g))
  /\ orange_count (group_stats g) = Z.of_nat (length (orange_group g))
  /\ green_count (group_stats g) + orange_count (group_stats g)
     + unknown_count (group_stats g) = total (group_stats g).

(** ** A small batch, used to run the program on

    A one-pixel-wide image of height 20 filled with one colour; its bottom
    band is its last row. *)
Definition flat_image (p : pixel) : image :=
  {| width := 1; height := 20; getdata := replicate 20 p |}.

(** [SP23] holds a green portrait, an orange one whose [avg_g - avg_r] is
    [-8], and a plainly orange one; [SP24] holds one green portrait. *)
Definition demo_images : gmap string image :=
  {[ "SP23/a.png"%string := flat_image (100, 200, 50);
     "SP23/b.png"%string := flat_image (200, 192, 50);
     "SP23/c.png"%string := flat_image (200, 100, 50);
     "SP24/d.png"%string := flat_image (100, 200, 50) ]}.

Definition demo_groups : groups :=
  {| green_group := ["SP23/a.png"%string];
     orange_group := ["SP23/c.png"%string; "SP23/b.png"%string];
     unknown_group := [];
     group_stats := {| green_count := 1; orange_count := 2; unknown_count := 0; total := 3 |} |}.

Definition demo_world : world :=
  {| folders := {[ "SP23"%string := ["SP23/c.png"; "SP23/b.png"; "SP23/a.png"]%string;
                   "SP24"%string := ["SP24/d.png"%string] ]};
     images := demo_images;
     artifacts := {[ "SP23"%string := demo_groups ]};
     read_only := ∅;
     pdfs := [] |}.

(** ** Statements about the layout (3, LayoutPlan, and 4.4) *)

(** [rows] is the ceiling of [total_images / cols] for a positive column
    count. *)
Definition rows_cover (total_images cols rows : Z) : Prop :=
  1 <= cols /\ cols * (rows - 1) < total_images <= cols * rows.

(** The grid holds all the images and the rows, with the spacing between
    them, are no higher than the printable height of the page. *)
Definition fits (size : Q * Q) (total_images : Z) (l : layout) : Prop :=
  total_images <= cols l * rows l
  /\ (img_height l * inject_Z (rows l) + (inject_Z (rows l) - 1) * spacing
      <= available_height size)%Q.

(** The condition of the landscape loop, [rows > cols / 1.5]. *)
Definition too_many_rows (cols rows : Z) : Prop :=
  (inject_Z cols / (15 # 10) < inject_Z rows)%Q.

(** [demo_world] with the folder [SP23] write-protected. *)
Definition locked_world : world :=
  {| folders := folders demo_world; images := images demo_world;
     artifacts := artifacts demo_world;
     read_only := {[ "SP23"%string ]};
     pdfs := pdfs demo_world |}.

(** A batch that the loop of [main] skips: its folder is missing or lists no
    PNG file. *)
Definition skipped (w : world) (batch : string * string) : Prop :=
  folders w !! fst batch = None \/ folders w !! fst batch = Some [].

(** ** Further statements about the classifier and the analyzer *)

(** An image as PIL hands it out: at least one column, and [getdata] holds
    [width * height] pixels. *)
Definition well_formed (img : image) : Prop :=
  1 <= width img /\ 0 <= height img
  /\ Z.of_nat (length (getdata img)) = width img * height img.

#[global] Instance label_eq_dec : EqDecision label.
Proof. solve_decision. Defined.

(** The collection [analyze_portraits] files a path under: the label of
    [get_bottom_color], UNKNOWN when it raises (lines 122-140). *)
Definition label_of (imgs : gmap string image) (png_file : string) : label :=
  match get_bottom_color imgs png_file with
  | Ok (l, _) => l
  | _ => Unknown
  end.

(** The file opens and its bottom band holds a pixel. *)
Definition readable (imgs : gmap string image) (png_file : string) : Prop :=
  exists img, imgs !! png_file = Some img /\ bottom_pixels img <> [].

(** Every image of the store has a positive width and height. *)
Definition positive_sizes (imgs : gmap string image) : Prop :=
  forall p img, imgs !! p = Some img -> 0 < width img /\ 0 < height img.

(** What [analyze_portraits] records for a directory listing, in closed
    form: each collection is the listing filtered by label. *)
Definition analysis (imgs : gmap string image) (png_files : list string) : groups :=
  let green := filter (fun p => label_of imgs p = Green) png_files in
  let orange := filter (fun p => label_of imgs p = Orange) png_files in
  let unknown := filter (fun p => label_of imgs p = Unknown) png_files in
  {| green_group := green; orange_group := orange; unknown_group := unknown;
     group_stats := {| green_count := Z.of_nat (length green);
                       orange_count := Z.of_nat (length orange);
                       unknown_count := Z.of_nat (length unknown);
                       total := Z.of_nat (length png_files) |} |}.

(** Two worlds that differ at most in the artifact of [year_folder]. *)
Definition same_but_artifact (year_folder : string) (w w' : world) : Prop :=
  folders w' = folders w /\ images w' = images w
  /\ read_only w' = read_only w /\ pdfs w' = pdfs w
  /\ forall other, other <> year_folder -> artifacts w' !! other = artifacts w !! other.

(** ** Further statements about the layout and the page *)



(** Lines 231-234 and 319-323: where the image of index [idx] is drawn. *)
Definition cell_x (l : layout) (idx : Z) : Q :=
  (margin + inject_Z (idx mod cols l) * (img_width l + spacing))%Q.

Definition cell_y (size : Q * Q) (l : layout) (idx : Z) : Q :=
  ((snd size - margin - title_height)
   - inject_Z (idx / cols l) * (img_height l + spacing) - img_height l)%Q.

(** The drawing calls of the placement loop started at index [idx]: one for
    each path that opens, at the cell of the path's own index. *)
Fixpoint draws_from (imgs : gmap string image) (size : Q * Q) (l : layout)
    (idx : Z) (image_paths : list string) : list draw :=
  match image_paths with
  | [] => []
  | p :: rest =>
    match imgs !! p with
    | Some _ =>
      DrawImage p (cell_x l idx) (cell_y size l idx) (img_width l) (img_height l)
      :: draws_from imgs size l (idx + 1) rest
    | None => draws_from imgs size l (idx + 1) rest
    end
  end.

(** ** Further statements about [process_year] and the loop of [main] *)

(** The world with more saved files and nothing else changed. *)
Definition add_pdfs (w : world) (new : list (string * canvas)) : world :=
  {| folders := folders w; images := images w; artifacts := artifacts w;
     read_only := read_only w; pdfs := pdfs w ++ new |}.

(** The collages one orientation makes of an artifact: one for GREEN and one
    for ORANGE, none for an empty collection (lines 456, 465, 476, 485). *)
Definition collage_count (g : groups) : nat :=
  (match green_group g with [] => 0 | _ :: _ => 1 end
   + match orange_group g with [] => 0 | _ :: _ => 1 end)%nat.


Definition one_page (file : string * canvas) : Prop := length (pages (snd file)) = 1%nat.

(** The artifact [process_year] leaves in the folder: the analysis of the
    listing, corrected when the correction is on. *)
Definition final_artifact (imgs : gmap string image) (png_files : list string)
    (auto_correct : bool) (threshold : Q) : groups :=
  if auto_correct then corrected imgs threshold (analysis imgs png_files)
  else analysis imgs png_files.

#[global] Instance skipped_dec (w : world) (batch : string * string) :
  Decision (skipped w batch).
Proof. unfold skipped. apply _. Defined.

(* ================================================================== *)
(** * Properties *)
(* ================================================================== *)

(** ** Comparisons on [Q] *)

Lemma Qlt_bool_iff (x y : Q) : Qlt_bool x y = true <-> (x < y)%Q.
Proof.
  unfold Qlt_bool. rewrite negb_true_iff.
  destruct (Qle_bool y x) eqn:E.
  - apply Qle_bool_iff in E. split; [discriminate | intros H; exfalso; lra].
  - split; [intros _ | reflexivity].
    apply Qnot_le_lt. intros H. apply Qle_bool_iff in H. congruence.
Qed.

Lemma Qle_bool_reflect (x y : Q) : reflect (x <= y)%Q (Qle_bool x y).
Proof. apply iff_reflect. symmetry. apply Qle_bool_iff. Qed.

Lemma Qlt_bool_reflect (x y : Q) : reflect (x < y)%Q (Qlt_bool x y).
Proof. apply iff_reflect. symmetry. apply Qlt_bool_iff. Qed.

(** ** The classifier *)

Lemma classify_rule_chain (avg_r avg_g avg_b : Q) :
  rule_chain avg_r avg_g avg_b (classify avg_r avg_g avg_b).
Proof.
  unfold classify, MIN_DIFF, MIN_VALUE. cbv zeta.
  destruct (Qle_bool_reflect 5 (avg_g - avg_r)) as [G1 | G1];
    destruct (Qlt_bool_reflect avg_b avg_g) as [G2 | G2];
    destruct (Qlt_bool_reflect 100 avg_g) as [G3 | G3]; cbn [andb];
    try (apply chain_green; unfold green_rule; tauto).
  all: assert (NG : ~ green_rule avg_r avg_g avg_b) by (unfold green_rule; tauto).
  all: destruct (Qle_bool_reflect (avg_g - avg_r) (- (5))) as [O1 | O1];
    destruct (Qlt_bool_reflect avg_b avg_r) as [O2 | O2];
    destruct (Qlt_bool_reflect 100 avg_r) as [O3 | O3]; cbn [andb];
    try (apply chain_orange; [exact NG | unfold orange_rule; tauto]).
  all: assert (NO : ~ orange_rule avg_r avg_g avg_b) by (unfold orange_rule; tauto).
  all: destruct (Qlt_bool_reflect (Qabs (avg_g - avg_r)) 5) as [T1 | T1];
    [ destruct (Qlt_bool_reflect 30 (Qmin avg_r avg_g - avg_b)) as [T2 | T2];
      [ destruct (Qle_bool_reflect (avg_r - 2) avg_g) as [T3 | T3];
        [ apply chain_tie_green | apply chain_tie_orange ];
        unfold saturated_tie; tauto
      | apply chain_unknown; unfold saturated_tie; tauto ]
    | apply chain_unknown; unfold saturated_tie; tauto ].
Qed.



(** ** The integer averages of the classifier *)

Lemma int_floor (x : Q) : (0 <= x)%Q -> int x = Qfloor x.
Proof.
  destruct x as [n d]. unfold Qle, int, Qfloor. simpl. intros H.
  apply Z.quot_div_nonneg; lia.
Qed.


Lemma channel_sums_fold (pixels : list pixel) (r0 g0 b0 : Z) :
  fold_left (fun '(r_sum, g_sum, b_sum) '(r, g, b) => (r_sum + r, g_sum + g, b_sum + b))
            pixels (r0, g0, b0)
  = let '(r_sum, g_sum, b_sum) := channel_sums pixels in
    (r0 + r_sum, g0 + g_sum, b0 + b_sum).
Proof.
  unfold channel_sums. revert r0 g0 b0.
  induction pixels as [| [[r g] b] pixels IH]; intros r0 g0 b0; simpl.
  - f_equal; [f_equal |]; lia.
  - rewrite (IH (r0 + r) (g0 + g) (b0 + b)), (IH (0 + r) (0 + g) (0 + b)).
    match goal with
    | |- context [fold_left ?f pixels (0, 0, 0)] =>
      destruct (fold_left f pixels (0, 0, 0)) as [[rs gs] bs]
    end.
    f_equal; [f_equal |]; lia.
Qed.


Lemma average_nonneg (sum count : Z) :
  0 <= sum -> 0 < count -> (0 <= inject_Z sum / inject_Z count)%Q.
Proof.
  intros Hs Hc. apply Qle_shift_div_l.
  - change 0%Q with (inject_Z 0). rewrite <- Zlt_Qlt. exact Hc.
  - rewrite Qmult_0_l. change 0%Q with (inject_Z 0). rewrite <- Zle_Qle. exact Hs.
Qed.

Lemma truediv_nonzero (a b : Z) :
  b <> 0 -> truediv a b = Ok (inject_Z a / inject_Z b)%Q.
Proof. intros H. unfold truediv. destruct (Z.eqb_spec b 0); [contradiction | reflexivity]. Qed.

Lemma color_of_pixels_nonempty (pixels : list pixel) :
  pixels <> [] ->
  let '(avg_r, avg_g, avg_b) := band_averages pixels in
  color_of_pixels pixels
  = Ok (classify avg_r avg_g avg_b, (int avg_r, int avg_g, int avg_b)).
Proof.
  intros Hne. unfold band_averages, color_of_pixels.
  destruct (channel_sums pixels) as [[r_sum g_sum] b_sum].
  assert (Hc : Z.of_nat (length pixels) <> 0) by (destruct pixels; [contradiction | simpl; lia]).
  rewrite !(truediv_nonzero _ _ Hc). reflexivity.
Qed.




(** ** The order on paths and [list.sort()] *)

Lemma ascii_compare_lt_trans (a b c : ascii) :
  Ascii.compare a b = Lt -> Ascii.compare b c = Lt -> Ascii.compare a c = Lt.
Proof.
  unfold Ascii.compare. rewrite !N.compare_lt_iff. apply N.lt_trans.
Qed.

Lemma string_compare_trans (p q r : string) :
  String.compare p q <> Gt -> String.compare q r <> Gt -> String.compare p r <> Gt.
Proof.
  revert q r. induction p as [| a p IH]; intros [| b q] [| c r]; simpl;
    try congruence.
  destruct (Ascii.compare a b) eqn:Hab; try congruence;
    destruct (Ascii.compare b c) eqn:Hbc; try congruence; intros H1 H2.
  - apply Ascii.compare_eq_iff in Hab, Hbc. subst.
    assert (Hcc : Ascii.compare c c = Eq) by (unfold Ascii.compare; apply N.compare_refl).
    rewrite Hcc. eapply IH; eassumption.
  - apply Ascii.compare_eq_iff in Hab. subst. rewrite Hbc. discriminate.
  - apply Ascii.compare_eq_iff in Hbc. subst. rewrite Hab. discriminate.
  - rewrite (ascii_compare_lt_trans a b c Hab Hbc). discriminate.
Qed.

Lemma path_le_compare (p q : string) : path_le p q <-> String.compare p q <> Gt.
Proof.
  unfold path_le, String.leb. destruct (String.compare p q); split; congruence.
Qed.

#[global] Instance path_le_trans : Transitive path_le.
Proof.
  intros p q r. rewrite !path_le_compare. apply string_compare_trans.
Qed.

#[global] Instance path_le_total : Total path_le.
Proof. intros p q. apply String.leb_total. Qed.

#[global] Instance path_le_antisym : AntiSymm (=) path_le.
Proof. intros p q. apply String.leb_antisym. Qed.

Lemma list_sort_sorted (l : list string) : Sorted path_le (list_sort l).
Proof. apply (Sorted_merge_sort path_le). Qed.

Lemma list_sort_perm (l : list string) : list_sort l ≡ₚ l.
Proof. apply (merge_sort_Permutation path_le). Qed.

Lemma list_sort_length (l : list string) : length (list_sort l) = length l.
Proof. apply Permutation_length, list_sort_perm. Qed.

Lemma list_sort_id (l : list string) : Sorted path_le l -> list_sort l = l.
Proof.
  intros H. apply (Sorted_unique path_le); [apply list_sort_sorted | exact H |].
  apply list_sort_perm.
Qed.

Lemma list_sort_idem (l : list string) : list_sort (list_sort l) = list_sort l.
Proof. apply list_sort_id, list_sort_sorted. Qed.

(** ** The corrector *)

Lemma band_diff_spec (imgs : gmap string image) (img_path : string) :
  band_diff imgs img_path
  = match imgs !! img_path with
    | Some img =>
      match bottom_pixels img with
      | [] => Raise ZeroDivisionError
      | _ :: _ =>
        let '(avg_r, avg_g, _) := band_averages (bottom_pixels img) in
        Ok (avg_g - avg_r)%Q
      end
    | None => Raise UnidentifiedImageError
    end.
Proof.
  unfold band_diff, Image_open, band_averages.
  destruct (imgs !! img_path) as [img |]; [| reflexivity].
  cbn [mbind result_bind].
  destruct (channel_sums (bottom_pixels img)) as [[r_sum g_sum] b_sum].
  destruct (bottom_pixels img) as [| p pixels]; [reflexivity |].
  rewrite !truediv_nonzero by (simpl; lia). reflexivity.
Qed.

Lemma scan_one_spec (imgs : gmap string image) (threshold : Q)
    (to_move : list string) (img_path : string) :
  scan_one imgs threshold to_move img_path
  = if decide (qualifies imgs threshold img_path) then to_move ++ [img_path] else to_move.
Proof.
  unfold scan_one. rewrite band_diff_spec.
  destruct (decide (qualifies imgs threshold img_path)) as [Hq | Hq];
    unfold qualifies in Hq;
    destruct (imgs !! img_path) as [img |]; try tauto;
    destruct (bottom_pixels img) as [| p pixels] eqn:E; try tauto;
    destruct (band_averages (p :: pixels)) as [[avg_r avg_g] avg_b];
    destruct (Qle_bool_reflect threshold (avg_g - avg_r)); try tauto.
  exfalso. apply Hq. split; [discriminate | assumption].
Qed.

Lemma scan_filter (imgs : gmap string image) (threshold : Q) (l to_move : list string) :
  fold_left (scan_one imgs threshold) l to_move
  = to_move ++ filter (qualifies imgs threshold) l.
Proof.
  revert to_move. induction l as [| p l IH]; intros to_move; simpl.
  - by rewrite app_nil_r.
  - rewrite IH, scan_one_spec, filter_cons.
    destruct (decide (qualifies imgs threshold p)); [| reflexivity].
    by rewrite <- app_assoc.
Qed.

Lemma list_remove_middle (x : string) (pre l : list string) :
  x ∉ pre -> list_remove x (pre ++ x :: l) = Ok (pre ++ l).
Proof.
  induction pre as [| y pre IH]; intros Hx; simpl.
  - destruct (decide (x = x)); [reflexivity | contradiction].
  - rewrite not_elem_of_cons in Hx. destruct Hx as [Hxy Hx].
    destruct (decide (y = x)); [congruence |].
    rewrite (IH Hx). reflexivity.
Qed.

Section moves.
Context (P : string -> Prop) `{forall p, Decision (P p)}.

Lemma moves_filter (l pre green : list string) :
  Forall (fun p => ~ P p) pre ->
  fold_left move_one (filter P l) (Ok (green, pre ++ l))
  = Ok (green ++ filter P l, pre ++ filter (fun p => ~ P p) l).
Proof.
  revert pre green. induction l as [| x l IH]; intros pre green Hpre.
  - simpl. by rewrite !app_nil_r.
  - rewrite !filter_cons. destruct (decide (P x)) as [Hx | Hx].
    + destruct (decide (~ P x)); [contradiction |].
      cbn [fold_left]. unfold move_one at 2. cbn [mbind result_bind].
      rewrite list_remove_middle.
      * cbn [mbind result_bind]. rewrite (IH pre (green ++ [x]) Hpre).
        by rewrite <- app_assoc.
      * intros Hin. rewrite Forall_forall in Hpre. exact (Hpre x Hin Hx).
    + destruct (decide (~ P x)); [| contradiction].
      replace (pre ++ x :: l) with ((pre ++ [x]) ++ l) by (by rewrite <- app_assoc).
      rewrite (IH (pre ++ [x]) green).
      * by rewrite <- app_assoc.
      * apply Forall_app. split; [exact Hpre | by constructor].
Qed.

Lemma filter_none (l : list string) : Forall (fun p => ~ P p) l -> filter P l = [].
Proof.
  induction 1 as [| x l Hx _ IH]; [reflexivity |].
  rewrite filter_cons. destruct (decide (P x)); [contradiction | exact IH].
Qed.

Lemma filter_all_not (l : list string) :
  Forall (fun p => ~ P p) l -> filter (fun p => ~ P p) l = l.
Proof.
  induction 1 as [| x l Hx _ IH]; [reflexivity |].
  rewrite filter_cons. destruct (decide (~ P x)); [by rewrite IH | contradiction].
Qed.

Lemma filter_not_Forall (l : list string) :
  Forall (fun p => ~ P p) (filter (fun p => ~ P p) l).
Proof.
  induction l as [| x l IH]; [constructor |].
  rewrite filter_cons. destruct (decide (~ P x)); [by constructor | exact IH].
Qed.

Lemma filter_split_perm (l : list string) :
  l ≡ₚ filter (fun p => ~ P p) l ++ filter P l.
Proof.
  induction l as [| x l IH]; [reflexivity |].
  rewrite !filter_cons. destruct (decide (P x)), (decide (~ P x)); try contradiction.
  - rewrite <- Permutation_middle. by constructor.
  - simpl. by constructor.
Qed.
End moves.

(** What lines 363-406 compute, in closed form. *)
Lemma correct_groups_spec (imgs : gmap string image) (threshold : Q) (g : groups) :
  correct_groups imgs threshold g
  = Ok (corrected imgs threshold g, moved_members imgs threshold g).
Proof.
  unfold correct_groups, corrected, moved_members, kept_members.
  rewrite scan_filter. cbn [app].
  pose proof (moves_filter (qualifies imgs threshold) (orange_group g) [] (green_group g)
                (Forall_nil_2 _)) as Hm.
  cbn [app] in Hm. rewrite Hm. reflexivity.
Qed.

Lemma write_artifact_Ok (w w' : world) (year_folder : string) (g : groups) :
  write_artifact w year_folder g = Ok w' <->
  is_Some (folders w !! year_folder) /\ (year_folder ∉ read_only w)
  /\ w' = set_artifact w year_folder g.
Proof.
  unfold write_artifact.
  destruct (folders w !! year_folder) as [pngs |].
  - destruct (decide (year_folder ∈ read_only w)) as [Hro | Hro].
    + split; [discriminate | tauto].
    + split.
      * intros [= <-]. eauto.
      * intros (_ & _ & ->). reflexivity.
  - split; [discriminate | intros ([? [=]] & _)].
Qed.

(** The corrector on a world whose artifact is [g]. *)
Lemma apply_auto_corrections_spec (w : world) (year_folder : string) (threshold : Q)
    (g : groups) :
  artifacts w !! year_folder = Some g ->
  apply_auto_corrections w year_folder threshold
  = (w' ← write_artifact w year_folder (corrected (images w) threshold g);
     Ok (w', Z.of_nat (length (moved_members (images w) threshold g)))).
Proof.
  intros Hg. unfold apply_auto_corrections, read_artifact. rewrite Hg.
  cbn [mbind result_bind]. rewrite correct_groups_spec. reflexivity.
Qed.

Lemma apply_auto_corrections_Ok (w w' : world) (year_folder : string) (threshold : Q)
    (g : groups) (n : Z) :
  artifacts w !! year_folder = Some g ->
  apply_auto_corrections w year_folder threshold = Ok (w', n) ->
  is_Some (folders w !! year_folder) /\ (year_folder ∉ read_only w)
  /\ w' = set_artifact w year_folder (corrected (images w) threshold g)
  /\ n = Z.of_nat (length (moved_members (images w) threshold g)).
Proof.
  intros Hg. rewrite (apply_auto_corrections_spec _ _ _ _ Hg).
  destruct (write_artifact w year_folder _) as [w'' | e |] eqn:Hw;
    cbn [mbind result_bind]; try discriminate.
  intros [= <- <-]. apply write_artifact_Ok in Hw. tauto.
Qed.

Lemma kept_members_Forall (imgs : gmap string image) (threshold : Q) (g : groups) :
  Forall (fun p => ~ qualifies imgs threshold p) (list_sort (kept_members imgs threshold g)).
Proof.
  rewrite list_sort_perm. apply (filter_not_Forall (qualifies imgs threshold)).
Qed.

(** Correcting a corrected artifact changes nothing and moves nothing. *)
Lemma corrected_fixpoint (imgs : gmap string image) (threshold : Q) (g : groups) :
  moved_members imgs threshold (corrected imgs threshold g) = []
  /\ corrected imgs threshold (corrected imgs threshold g) = corrected imgs threshold g.
Proof.
  assert (Hm : moved_members imgs threshold (corrected imgs threshold g) = []).
  { unfold moved_members at 1. cbn [corrected orange_group].
    apply (filter_none (qualifies imgs threshold)), kept_members_Forall. }
  assert (Hk : kept_members imgs threshold (corrected imgs threshold g)
               = list_sort (kept_members imgs threshold g)).
  { unfold kept_members at 1. cbn [corrected orange_group].
    apply (filter_all_not (qualifies imgs threshold)), kept_members_Forall. }
  split; [exact Hm |].
  unfold corrected at 1. rewrite Hm, Hk, app_nil_r.
  cbn [corrected green_group unknown_group group_stats unknown_count total].
  rewrite !list_sort_idem, !list_sort_length. reflexivity.
Qed.



(** C3.  A run of the corrector moves a list [moved] of members out of ORANGE
    and into GREEN and nothing else: the new GREEN is the old GREEN plus
    [moved], the old ORANGE is the new ORANGE plus [moved], UNKNOWN is the
    same list, and when the counts of the artifact added up to its total
    before the run they still do after it. *)
Theorem corrector_only_moves_orange_to_green
    (w w' : world) (year_folder : string) (threshold : Q) (g : groups) (n : Z) :
  artifacts w !! year_folder = Some g ->
  counts_add_up g ->
  apply_auto_corrections w year_folder threshold = Ok (w', n) ->
  exists (g' : groups) (moved : list string),
    artifacts w' !! year_folder = Some g'
    /\ n = Z.of_nat (length moved)
    /\ green_group g' ≡ₚ green_group g ++ moved
    /\ orange_group g ≡ₚ orange_group g' ++ moved
    /\ unknown_group g' = unknown_group g
    /\ total (group_stats g') = total (group_stats g)
    /\ green_count (group_stats g') + orange_count (group_stats g')
       + unknown_count (group_stats g') = total (group_stats g').
Proof.
  intros Hg (Hgc & Hoc & Hsum) Hrun.
  destruct (apply_auto_corrections_Ok _ _ _ _ _ _ Hg Hrun) as (_ & _ & -> & ->).
  exists (corrected (images w) threshold g), (moved_members (images w) threshold g).
  split; [apply lookup_insert_eq |].
  split; [reflexivity |].
  split; [apply list_sort_perm |].
  assert (Hsplit : orange_group g
                   ≡ₚ kept_members (images w) threshold g
                      ++ moved_members (images w) threshold g)
    by apply (filter_split_perm (qualifies (images w) threshold)).
  split.
  { cbn [corrected orange_group]. rewrite list_sort_perm. exact Hsplit. }
  split; [reflexivity |].
  split; [reflexivity |].
  cbn [corrected group_stats green_count orange_count unknown_count total].
  apply Permutation_length in Hsplit. rewrite length_app in Hsplit |- *.
  lia.
Qed.

Lemma corrector_only_moves_orange_to_green_witness :
  exists (g' : groups) (moved : list string),
    artifacts (set_artifact demo_world "SP23" (corrected demo_images (-10 # 1) demo_groups))
      !! "SP23"%string = Some g'
    /\ 1 = Z.of_nat (length moved)
    /\ green_group g' ≡ₚ green_group demo_groups ++ moved
    /\ orange_group demo_groups ≡ₚ orange_group g' ++ moved
    /\ unknown_group g' = unknown_group demo_groups
    /\ total (group_stats g') = total (group_stats demo_groups)
    /\ green_count (group_stats g') + orange_count (group_stats g')
       + unknown_count (group_stats g') = total (group_stats g').
Proof.
  apply (corrector_only_moves_orange_to_green demo_world _ "SP23" (-10 # 1) demo_groups 1).
  - reflexivity.
  - vm_compute. tauto.
  - vm_compute. reflexivity.
Defined.

(** C4.  A second run of the corrector on the artifact the first run wrote,
    with the same threshold and the same image files, returns 0 and leaves
    the whole file system, the artifact included, as the first run left
    it. *)
Theorem apply_auto_corrections_idempotent
    (w w1 : world) (year_folder : string) (threshold : Q) (n1 : Z) :
  apply_auto_corrections w year_folder threshold = Ok (w1, n1) ->
  apply_auto_corrections w1 year_folder threshold = Ok (w1, 0).
Proof.
  intros Hrun.
  destruct (artifacts w !! year_folder) as [g |] eqn:Hg.
  2: { unfold apply_auto_corrections, read_artifact in Hrun. rewrite Hg in Hrun.
       discriminate. }
  destruct (apply_auto_corrections_Ok _ _ _ _ _ _ Hg Hrun) as (Hdir & Hrw & -> & _).
  set (g1 := corrected (images w) threshold g).
  assert (Hg1 : artifacts (set_artifact w year_folder g1) !! year_folder = Some g1)
    by apply lookup_insert_eq.
  rewrite (apply_auto_corrections_spec _ _ _ _ Hg1).
  cbn [set_artifact images].
  destruct (corrected_fixpoint (images w) threshold g) as [Hm Hc].
  fold g1 in Hm, Hc. rewrite Hm, Hc.
  assert (Hw : write_artifact (set_artifact w year_folder g1) year_folder g1
               = Ok (set_artifact w year_folder g1)).
  { apply write_artifact_Ok. cbn [set_artifact folders read_only].
    split; [exact Hdir | split; [exact Hrw |]].
    unfold set_artifact. cbn [folders images artifacts read_only pdfs].
    by rewrite insert_insert_eq. }
  rewrite Hw. reflexivity.
Qed.

Lemma apply_auto_corrections_idempotent_witness :
  apply_auto_corrections
    (set_artifact demo_world "SP23" (corrected demo_images (-10 # 1) demo_groups))
    "SP23" (-10 # 1)
  = Ok (set_artifact demo_world "SP23" (corrected demo_images (-10 # 1) demo_groups), 0).
Proof.
  apply (apply_auto_corrections_idempotent demo_world _ "SP23" (-10 # 1) 1).
  vm_compute. reflexivity.
Defined.

(** ** The grid *)

Lemma ceil_quotient (total_images cols : Z) :
  1 <= cols ->
  cols * (ceil (inject_Z total_images / inject_Z cols) - 1) < total_images
  <= cols * ceil (inject_Z total_images / inject_Z cols).
Proof.
  intros Hc. unfold ceil.
  set (x := (inject_Z total_images / inject_Z cols)%Q).
  assert (Hpos : (0 < inject_Z cols)%Q)
    by (change 0%Q with (inject_Z 0); rewrite <- Zlt_Qlt; lia).
  assert (Hx : (x * inject_Z cols == inject_Z total_images)%Q).
  { unfold x. field. intros E. rewrite E in Hpos. exact (Qlt_irrefl _ Hpos). }
  split.
  - pose proof (Qceiling_lt x) as Hlt.
    apply (Qmult_lt_compat_r _ _ _ Hpos) in Hlt.
    rewrite Hx, <- inject_Z_mult, <- Zlt_Qlt in Hlt. lia.
  - pose proof (Qle_ceiling x) as Hle.
    apply (Qmult_le_compat_r _ _ (inject_Z cols)) in Hle; [| apply Qlt_le_weak, Hpos].
    rewrite Hx, <- inject_Z_mult, <- Zle_Qle in Hle. lia.
Qed.

Lemma ceil_div_covers (total_images cols : Z) :
  1 <= cols ->
  exists rows, ceil_div total_images cols = Ok rows /\ rows_cover total_images cols rows.
Proof.
  intros Hc. unfold ceil_div. rewrite truediv_nonzero by lia.
  eexists. split; [reflexivity |].
  split; [exact Hc | apply ceil_quotient, Hc].
Qed.

Lemma rows_cover_positive (total_images cols rows : Z) :
  1 <= total_images -> rows_cover total_images cols rows -> 1 <= rows.
Proof. intros HN (Hc & _ & Hle). nia. Qed.

Lemma rows_cover_capacity (total_images cols rows : Z) :
  rows_cover total_images cols rows -> total_images <= cols * rows.
Proof. intros (_ & _ & Hle). exact Hle. Qed.

Lemma ceil_sqrt_positive (x : Q) : (0 < x)%Q -> 1 <= ceil_sqrt x.
Proof.
  intros Hx. unfold ceil_sqrt.
  assert (Hm : 0 < Qceiling x).
  { pose proof (Qle_ceiling x) as Hle.
    assert (H0 : (inject_Z 0 < inject_Z (Qceiling x))%Q)
      by (eapply Qlt_le_trans; [exact Hx | exact Hle]).
    rewrite <- Zlt_Qlt in H0. exact H0. }
  destruct (Z.leb_spec (Qceiling x) 0) as [H | _]; [lia |].
  pose proof (proj2 (Z.sqrt_pos (Qceiling x)) Hm) as Hs.
  destruct (Z.sqrt (Qceiling x) * Z.sqrt (Qceiling x) =? Qceiling x); lia.
Qed.

(** [ceil_sqrt x] is the ceiling of the square root of a positive [x]. *)
Lemma ceil_sqrt_bounds (x : Q) :
  (0 < x)%Q ->
  (inject_Z ((ceil_sqrt x - 1) * (ceil_sqrt x - 1)) < x
   <= inject_Z (ceil_sqrt x * ceil_sqrt x))%Q.
Proof.
  intros Hx. unfold ceil_sqrt.
  pose proof (Qle_ceiling x) as Hle. pose proof (Qceiling_lt x) as Hlt.
  set (m := Qceiling x) in *.
  assert (Hm : 0 < m).
  { assert (H0 : (inject_Z 0 < inject_Z m)%Q)
      by (eapply Qlt_le_trans; [exact Hx | exact Hle]).
    rewrite <- Zlt_Qlt in H0. exact H0. }
  destruct (Z.leb_spec m 0) as [H | _]; [lia |].
  pose proof (Z.sqrt_spec m ltac:(lia)) as [Hlo Hhi].
  set (s := Z.sqrt m) in *.
  assert (Hs : 0 <= s) by apply Z.sqrt_nonneg.
  destruct (Z.eqb_spec (s * s) m) as [E | E].
  - split.
    + eapply Qle_lt_trans; [| exact Hlt]. rewrite <- Zle_Qle. nia.
    + eapply Qle_trans; [exact Hle |]. rewrite <- Zle_Qle. lia.
  - split.
    + eapply Qle_lt_trans; [| exact Hlt]. rewrite <- Zle_Qle.
      replace (s + 1 - 1) with s by lia. lia.
    + eapply Qle_trans; [exact Hle |]. rewrite <- Zle_Qle. nia.
Qed.

Lemma page_aspect_positive (size : Q * Q) (total_images : Z) :
  size = A4 \/ size = landscape A4 ->
  1 <= total_images ->
  (0 < inject_Z total_images * (available_width size / available_height size))%Q.
Proof.
  intros Hsize HN.
  assert (Ha : (0 < available_width size / available_height size)%Q)
    by (destruct Hsize as [-> | ->]; reflexivity).
  assert (Hn : (0 < inject_Z total_images)%Q)
    by (change 0%Q with (inject_Z 0); rewrite <- Zlt_Qlt; lia).
  rewrite <- (Qmult_0_l (available_width size / available_height size)).
  apply Qmult_lt_compat_r; assumption.
Qed.

Lemma initial_grid_covers (size : Q * Q) (total_images : Z) :
  size = A4 \/ size = landscape A4 ->
  1 <= total_images ->
  exists cols rows,
    initial_grid size total_images = Ok (cols, rows)
    /\ rows_cover total_images cols rows.
Proof.
  intros Hsize HN. unfold initial_grid.
  pose proof (ceil_sqrt_positive _ (page_aspect_positive size total_images Hsize HN)) as Hc.
  destruct (ceil_div_covers total_images _ Hc) as (rows & -> & Hcover).
  eexists _, _. split; [reflexivity | exact Hcover].
Qed.

Lemma portrait_loop_exits (total_images : Z) (fuel : nat) :
  1 <= total_images ->
  forall cols rows,
    rows_cover total_images cols rows ->
    (Z.to_nat cols <= fuel)%nat ->
    exists cols' rows',
      portrait_loop fuel total_images cols rows = Ok (cols', rows')
      /\ rows_cover total_images cols' rows'
      /\ cols' <= rows'.
Proof.
  intros HN. induction fuel as [| fuel IH]; intros cols rows Hcover Hfuel.
  - destruct Hcover as [Hc _]. lia.
  - pose proof (rows_cover_positive _ _ _ HN Hcover) as Hr.
    pose proof Hcover as [Hc _].
    cbn [portrait_loop].
    destruct (Z.ltb_spec rows cols) as [Hlt | Hge].
    + destruct (Z.ltb_spec (cols - 1) 1) as [H1 | H1]; [lia |].
      destruct (ceil_div_covers total_images (cols - 1) H1) as (rows1 & -> & Hcover1).
      cbn [mbind result_bind]. apply IH; [exact Hcover1 | lia].
    + exists cols, rows. split; [reflexivity | split; [exact Hcover | lia]].
Qed.

Lemma too_many_rows_iff (cols rows : Z) : too_many_rows cols rows <-> 2 * cols < 3 * rows.
Proof.
  unfold too_many_rows, Qlt, Qdiv, Qmult, Qinv, inject_Z. simpl. lia.
Qed.

Lemma landscape_loop_exits (total_images : Z) (fuel : nat) :
  1 <= total_images ->
  forall cols rows,
    rows_cover total_images cols rows ->
    (Z.to_nat (Z.max total_images 2 - cols) <= fuel)%nat ->
    exists cols' rows',
      landscape_loop fuel total_images cols rows = Ok (cols', rows')
      /\ rows_cover total_images cols' rows'
      /\ ~ too_many_rows cols' rows'.
Proof.
  intros HN. induction fuel as [| fuel IH]; intros cols rows Hcover Hfuel;
    pose proof Hcover as (Hc & Hlo & Hhi);
    cbn [landscape_loop];
    destruct (Qlt_bool_reflect (inject_Z cols / (15 # 10)) (inject_Z rows)) as [Hg | Hg].
  - apply too_many_rows_iff in Hg. exfalso. nia.
  - exists cols, rows. split; [reflexivity | split; [exact Hcover | exact Hg]].
  - apply too_many_rows_iff in Hg.
    assert (Hlt : cols < Z.max total_images 2) by nia.
    destruct (ceil_div_covers total_images (cols + 1) ltac:(lia)) as (rows1 & -> & Hcover1).
    cbn [mbind result_bind]. apply IH; [exact Hcover1 | lia].
  - exists cols, rows. split; [reflexivity | split; [exact Hcover | exact Hg]].
Qed.

Lemma portrait_grid_covers (total_images : Z) :
  1 <= total_images ->
  exists cols rows,
    portrait_grid total_images = Ok (cols, rows)
    /\ rows_cover total_images cols rows /\ cols <= rows.
Proof.
  intros HN. unfold portrait_grid.
  destruct (initial_grid_covers A4 total_images (or_introl eq_refl) HN)
    as (cols0 & rows0 & -> & Hcover).
  cbn [mbind result_bind].
  apply portrait_loop_exits; [exact HN | exact Hcover | lia].
Qed.

Lemma landscape_grid_covers (total_images : Z) :
  1 <= total_images ->
  exists cols rows,
    landscape_grid total_images = Ok (cols, rows)
    /\ rows_cover total_images cols rows /\ ~ too_many_rows cols rows.
Proof.
  intros HN. unfold landscape_grid.
  destruct (initial_grid_covers (landscape A4) total_images (or_intror eq_refl) HN)
    as (cols0 & rows0 & -> & Hcover).
  cbn [mbind result_bind].
  apply landscape_loop_exits; [exact HN | exact Hcover |].
  destruct Hcover as [Hc _]. lia.
Qed.

(** ** The cell size *)

Lemma cell_size_fits (size : Q * Q) (total_images c r : Z) (aspect_ratio : Q)
    (l : layout) :
  1 <= r ->
  total_images <= c * r ->
  cell_size size (c, r) aspect_ratio = Ok l ->
  cols l = c /\ rows l = r /\ fits size total_images l.
Proof.
  intros Hr Hcap. unfold cell_size, fits.
  assert (Hnz : ~ (inject_Z r == 0)%Q).
  { unfold Qeq. simpl. lia. }
  match goal with
  | |- context [Qlt_bool ?a ?b] => destruct (Qlt_bool_reflect a b) as [Hhigh | Hlow]
  end.
  - destruct (Qeq_bool aspect_ratio 0); [discriminate |].
    intros [= <-]. cbn [cols rows img_height].
    split; [reflexivity | split; [reflexivity | split; [exact Hcap |]]].
    apply Qle_lteq. right. field. exact Hnz.
  - intros [= <-]. cbn [cols rows img_height].
    split; [reflexivity | split; [reflexivity | split; [exact Hcap |]]].
    apply Qnot_lt_le. exact Hlow.
Qed.

Lemma cell_size_total (size : Q * Q) (grid : Z * Z) (aspect_ratio : Q) :
  ~ (aspect_ratio == 0)%Q -> exists l, cell_size size grid aspect_ratio = Ok l.
Proof.
  intros Har. unfold cell_size. destruct grid as [cols rows].
  destruct (Qlt_bool _ _); [| eexists; reflexivity].
  destruct (Qeq_bool aspect_ratio 0) eqn:E; [| eexists; reflexivity].
  apply Qeq_bool_iff in E. contradiction.
Qed.

Lemma sample_aspect_ratio_Ok (imgs : gmap string image) (first : string)
    (rest : list string) (img : image) :
  imgs !! first = Some img ->
  0 < width img -> 0 < height img ->
  exists aspect_ratio,
    sample_aspect_ratio imgs (first :: rest) = Ok aspect_ratio
    /\ ~ (aspect_ratio == 0)%Q.
Proof.
  intros Himg Hw Hh. unfold sample_aspect_ratio, Image_open. rewrite Himg.
  cbn [mbind result_bind]. rewrite truediv_nonzero by lia.
  eexists. split; [reflexivity |].
  assert (Hpos : (0 < inject_Z (height img) / inject_Z (width img))%Q).
  { apply Qlt_shift_div_l.
    - change 0%Q with (inject_Z 0). rewrite <- Zlt_Qlt. exact Hw.
    - rewrite Qmult_0_l. change 0%Q with (inject_Z 0). rewrite <- Zlt_Qlt. exact Hh. }
  intros E. rewrite E in Hpos. exact (Qlt_irrefl _ Hpos).
Qed.

Lemma length_positive (image_paths : list string) :
  image_paths <> [] -> 1 <= Z.of_nat (length image_paths).
Proof. destruct image_paths; [contradiction | simpl; lia]. Qed.



Lemma plans_total (imgs : gmap string image) (first : string) (rest : list string)
    (img : image) :
  imgs !! first = Some img ->
  0 < width img -> 0 < height img ->
  exists lp ll,
    plan_portrait imgs (first :: rest) = Ok lp
    /\ plan_landscape imgs (first :: rest) = Ok ll.
Proof.
  intros Himg Hw Hh.
  assert (Hne : 1 <= Z.of_nat (length (first :: rest))) by (simpl; lia).
  destruct (sample_aspect_ratio_Ok imgs first rest img Himg Hw Hh) as (ar & Har & Hnz).
  unfold plan_portrait, plan_landscape.
  destruct (portrait_grid_covers _ Hne) as (pc & pr & -> & _).
  destruct (landscape_grid_covers _ Hne) as (lc & lr & -> & _).
  rewrite Har. cbn [mbind result_bind].
  destruct (cell_size_total A4 (pc, pr) ar Hnz) as (lp & ->).
  destruct (cell_size_total (landscape A4) (lc, lr) ar Hnz) as (ll & ->).
  eauto.
Qed.



(** C9.  For every number of images [N >= 1] the portrait loop, started from
    the initial columns and rows, ends within its budget, and the grid it
    ends with has [cols <= rows]. *)
Theorem portrait_grid_not_wider_than_tall (total_images : Z) :
  1 <= total_images ->
  exists cols0 rows0 cols rows,
    initial_grid A4 total_images = Ok (cols0, rows0)
    /\ portrait_loop (Z.to_nat cols0) total_images cols0 rows0 = Ok (cols, rows)
    /\ portrait_grid total_images = Ok (cols, rows)
    /\ cols <= rows.
Proof.
  intros HN.
  destruct (initial_grid_covers A4 total_images (or_introl eq_refl) HN)
    as (cols0 & rows0 & Hinit & Hcover).
  destruct (portrait_loop_exits total_images (Z.to_nat cols0) HN cols0 rows0 Hcover
              (Nat.le_refl _)) as (cols & rows & Hloop & _ & Hle).
  exists cols0, rows0, cols, rows.
  split; [exact Hinit | split; [exact Hloop | split; [| exact Hle]]].
  unfold portrait_grid. rewrite Hinit. cbn [mbind result_bind]. exact Hloop.
Qed.

Lemma portrait_grid_not_wider_than_tall_witness :
  exists cols0 rows0 cols rows,
    initial_grid A4 10 = Ok (cols0, rows0)
    /\ portrait_loop (Z.to_nat cols0) 10 cols0 rows0 = Ok (cols, rows)
    /\ portrait_grid 10 = Ok (cols, rows)
    /\ cols <= rows.
Proof. apply (portrait_grid_not_wider_than_tall 10). lia. Defined.

(** C10.  For every number of images [N >= 1] the landscape loop, started
    from the initial columns and rows, ends on every budget of at least
    [max N 2] turns, in a grid for which [rows > cols / 1.5] is false. *)
Theorem landscape_loop_terminates (total_images : Z) :
  1 <= total_images ->
  exists cols0 rows0,
    initial_grid (landscape A4) total_images = Ok (cols0, rows0)
    /\ forall fuel, (Z.to_nat (Z.max total_images 2) <= fuel)%nat ->
         exists cols rows,
           landscape_loop fuel total_images cols0 rows0 = Ok (cols, rows)
           /\ ~ too_many_rows cols rows.
Proof.
  intros HN.
  destruct (initial_grid_covers (landscape A4) total_images (or_intror eq_refl) HN)
    as (cols0 & rows0 & Hinit & Hcover).
  exists cols0, rows0. split; [exact Hinit |].
  intros fuel Hfuel.
  destruct (landscape_loop_exits total_images fuel HN cols0 rows0 Hcover)
    as (cols & rows & Hloop & _ & Hexit).
  - destruct Hcover as [Hc _]. lia.
  - eauto.
Qed.

Lemma landscape_loop_terminates_witness :
  exists cols0 rows0,
    initial_grid (landscape A4) 10 = Ok (cols0, rows0)
    /\ forall fuel, (Z.to_nat (Z.max 10 2) <= fuel)%nat ->
         exists cols rows,
           landscape_loop fuel 10 cols0 rows0 = Ok (cols, rows)
           /\ ~ too_many_rows cols rows.
Proof. apply (landscape_loop_terminates 10). lia. Defined.

(** ** The rendered page *)

Lemma place_image_pages (imgs : gmap string image) (size : Q * Q) (l : layout)
    (image_paths : list string) (c : canvas) (idx : Z) :
  pages (fst (fold_left (place_image imgs size l) image_paths (c, idx))) = pages c.
Proof.
  revert c idx. induction image_paths as [| p image_paths IH]; intros c idx.
  - reflexivity.
  - cbn [fold_left]. unfold place_image at 2.
    destruct (Image_open imgs p); rewrite IH; reflexivity.
Qed.

Lemma render_one_page (imgs : gmap string image) (size : Q * Q) (l : layout)
    (image_paths : list string) (title : string) :
  length (pages (render imgs size l image_paths title)) = 1%nat.
Proof.
  unfold render.
  match goal with
  | |- context [fold_left ?f image_paths ?a] =>
    pose proof (place_image_pages imgs size l image_paths (fst a) (snd a)) as Hp;
    cbn [fst snd] in Hp;
    destruct (fold_left f image_paths a) as [c idx]
  end.
  cbn [fst] in Hp. unfold save, showPage. cbn [current_page pages].
  rewrite Hp. reflexivity.
Qed.

Lemma one_image_grids : portrait_grid 1 = Ok (1, 1) /\ landscape_grid 1 = Ok (2, 1).
Proof. split; vm_compute; reflexivity. Qed.

(** C7 (as amended).  For a list of exactly one image that opens with a
    positive width and height, the portrait planner produces the grid of 1
    column and 1 row, the landscape planner the grid of 2 columns and 1 row,
    and in each orientation the file that is saved has exactly one page. *)
Theorem one_image_layout
    (w : world) (img_path output_pdf title : string) (img : image) :
  images w !! img_path = Some img ->
  0 < width img -> 0 < height img ->
  (exists l, plan_portrait (images w) [img_path] = Ok l /\ cols l = 1 /\ rows l = 1)
  /\ (exists l, plan_landscape (images w) [img_path] = Ok l /\ cols l = 2 /\ rows l = 1)
  /\ (exists c, create_collage_pdf_portrait w [img_path] output_pdf title
                = Ok (write_pdf w output_pdf c)
                /\ length (pages c) = 1%nat)
  /\ (exists c, create_collage_pdf_landscape w [img_path] output_pdf title
                = Ok (write_pdf w output_pdf c)
                /\ length (pages c) = 1%nat).
Proof.
  intros Himg Hw Hh.
  destruct (plans_total (images w) img_path [] img Himg Hw Hh) as (lp & ll & Hp & Hl).
  destruct one_image_grids as [Hgp Hgl].
  assert (Hlp : cols lp = 1 /\ rows lp = 1).
  { pose proof Hp as Hp'. unfold plan_portrait in Hp'.
    change (Z.of_nat (length [img_path])) with 1 in Hp'. rewrite Hgp in Hp'.
    cbn [mbind result_bind] in Hp'.
    destruct (sample_aspect_ratio (images w) [img_path]) as [ar | e |];
      cbn [mbind result_bind] in Hp'; [| discriminate Hp' | discriminate Hp'].
    destruct (cell_size_fits A4 1 1 1 ar lp ltac:(lia) ltac:(lia) Hp') as (H1 & H2 & _).
    tauto. }
  assert (Hll : cols ll = 2 /\ rows ll = 1).
  { pose proof Hl as Hl'. unfold plan_landscape in Hl'.
    change (Z.of_nat (length [img_path])) with 1 in Hl'. rewrite Hgl in Hl'.
    cbn [mbind result_bind] in Hl'.
    destruct (sample_aspect_ratio (images w) [img_path]) as [ar | e |];
      cbn [mbind result_bind] in Hl'; [| discriminate Hl' | discriminate Hl'].
    destruct (cell_size_fits (landscape A4) 1 2 1 ar ll ltac:(lia) ltac:(lia) Hl')
      as (H1 & H2 & _).
    tauto. }
  split; [exists lp; tauto |].
  split; [exists ll; tauto |].
  split.
  - unfold create_collage_pdf_portrait. rewrite Hp. cbn [mbind result_bind].
    eexists. split; [reflexivity | apply render_one_page].
  - unfold create_collage_pdf_landscape. rewrite Hl. cbn [mbind result_bind].
    eexists. split; [reflexivity | apply render_one_page].
Qed.

Lemma one_image_layout_witness :
  (exists l, plan_portrait (images demo_world) ["SP24/d.png"%string] = Ok l
             /\ cols l = 1 /\ rows l = 1)
  /\ (exists l, plan_landscape (images demo_world) ["SP24/d.png"%string] = Ok l
                /\ cols l = 2 /\ rows l = 1)
  /\ (exists c, create_collage_pdf_portrait demo_world ["SP24/d.png"%string] "d.pdf" "SP24"
                = Ok (write_pdf demo_world "d.pdf" c)
                /\ length (pages c) = 1%nat)
  /\ (exists c, create_collage_pdf_landscape demo_world ["SP24/d.png"%string] "d.pdf" "SP24"
                = Ok (write_pdf demo_world "d.pdf" c)
                /\ length (pages c) = 1%nat).
Proof.
  apply (one_image_layout demo_world "SP24/d.png" "d.pdf" "SP24" (flat_image (100, 200, 50))).
  - reflexivity.
  - reflexivity.
  - reflexivity.
Defined.

(** C7 (as stated) fails in landscape: for the single image [SP24/d.png] the
    landscape planner lays out 2 columns by 1 row, not 1 by 1. *)
Lemma one_image_landscape_not_1x1 :
  exists l, plan_landscape demo_images ["SP24/d.png"%string] = Ok l
            /\ cols l = 2 /\ rows l = 1
            /\ ~ (cols l = 1 /\ rows l = 1).
Proof.
  eexists. split; [vm_compute; reflexivity |].
  cbn [cols rows]. split; [reflexivity | split; [reflexivity | lia]].
Qed.

(** ** The loop of [main] *)

Lemma main_loop_skips (w : world) (batches rest : list (string * string))
    (output_folder : string) (auto_correct : bool) (threshold : Z) (o : orientation) :
  Forall (skipped w) batches ->
  main_loop w (batches ++ rest) output_folder auto_correct threshold o
  = main_loop w rest output_folder auto_correct threshold o.
Proof.
  induction 1 as [| [year_folder year_num] batches Hskip _ IH]; [reflexivity |].
  cbn [app main_loop]. unfold skipped in Hskip. cbn [fst] in Hskip.
  destruct Hskip as [-> | ->]; exact IH.
Qed.

(** C8 (as amended).  The loop of [main] skips the batches whose folder is
    missing or holds no PNG file and goes on; at the first batch whose
    processing raises an exception the loop raises that exception itself,
    whatever batches were still to come. *)
Theorem main_loop_stops_at_first_exception
    (w : world) (before rest : list (string * string)) (year_folder year_num : string)
    (png : string) (pngs : list string)
    (output_folder : string) (auto_correct : bool) (threshold : Z) (o : orientation)
    (e : exn) :
  Forall (skipped w) before ->
  folders w !! year_folder = Some (png :: pngs) ->
  process_year w year_folder year_folder output_folder auto_correct
    (inject_Z threshold) o = Raise e ->
  main_loop w (before ++ (year_folder, year_num) :: rest)
    output_folder auto_correct threshold o = Raise e.
Proof.
  intros Hskip Hdir Hraise. rewrite (main_loop_skips _ _ _ _ _ _ _ Hskip).
  cbn [main_loop]. rewrite Hdir, Hraise. reflexivity.
Qed.

Lemma main_loop_stops_at_first_exception_witness :
  main_loop locked_world
    ([("SP22", "22")%string] ++ ("SP23", "23")%string :: [("SP24", "24")%string])
    "Collages" true (-10) Portrait = Raise PermissionError.
Proof.
  apply (main_loop_stops_at_first_exception locked_world [("SP22", "22")%string]
           [("SP24", "24")%string] "SP23" "23" "SP23/c.png"
           ["SP23/b.png"; "SP23/a.png"]%string "Collages" true (-10) Portrait
           PermissionError).
  - constructor; [left; reflexivity | constructor].
  - reflexivity.
  - vm_compute. reflexivity.
Defined.

(** C8 (as stated) fails: the corrector raises when the artifact is missing,
    and a run over [SP23] and [SP24] in which [SP23] fails ends in the
    exception, although [SP24] alone is processed to the end. *)
Lemma failing_batch_aborts_run :
  apply_auto_corrections demo_world "SP24" (-10 # 1) = Raise FileNotFoundError
  /\ main_loop locked_world [("SP23", "23"); ("SP24", "24")]%string
       "Collages" true (-10) Portrait = Raise PermissionError
  /\ exists w', main_loop locked_world [("SP24", "24")%string]
                  "Collages" true (-10) Portrait = Ok w'
                /\ is_Some (artifacts w' !! "SP24"%string)
                /\ length (pdfs w') = 1%nat.
Proof.
  split; [vm_compute; reflexivity |].
  split; [vm_compute; reflexivity |].
  eexists. split; [vm_compute; reflexivity |].
  split; [eexists; vm_compute; reflexivity | reflexivity].
Qed.

(* ================================================================== *)
(** * Further properties of the code

    The failures of the file system that the embedding knows are a file
    that does not open, an empty bottom band, a missing folder or artifact
    and a write-protected folder; creating the output folder and saving a
    PDF file are taken to succeed. *)
(* ================================================================== *)

(** ** The rule chain *)

Lemma classify_sides (avg_r avg_g avg_b : Q) :
  match classify avg_r avg_g avg_b with
  | Green => (avg_r - 2 <= avg_g /\ avg_b < avg_g)%Q
  | Orange => (avg_g < avg_r - 2 /\ avg_b < avg_r)%Q
  | Unknown => True
  end.
Proof.
  pose proof (classify_rule_chain avg_r avg_g avg_b) as H.
  pose proof (Q.le_min_l avg_r avg_g) as Hl.
  pose proof (Q.le_min_r avg_r avg_g) as Hr.
  destruct H as [(H1 & H2 & H3) | _ (H1 & H2 & H3) | _ _ (H1 & H2) H3
                 | _ _ (H1 & H2) H3 | _ _ _]; try exact I.
  - split; lra.
  - split; lra.
  - split; lra.
  - apply Qnot_le_lt in H3. split; lra.
Qed.

(** X1.  The classifier answers GREEN only when [avg_g >= avg_r - 2] and
    [avg_g > avg_b], and ORANGE only when [avg_g < avg_r - 2] and
    [avg_r > avg_b]: the label never contradicts the order of the red and
    green means, and the winning channel always exceeds blue. *)
Theorem classify_label_agrees_with_channels (avg_r avg_g avg_b : Q) :
  match classify avg_r avg_g avg_b with
  | Green => (avg_r - 2 <= avg_g /\ avg_b < avg_g)%Q
  | Orange => (avg_g < avg_r - 2 /\ avg_b < avg_r)%Q
  | Unknown => True
  end.
Proof. apply classify_sides. Qed.



(** ** The bottom band *)

Lemma bottom_height_quotient (img : image) :
  0 <= height img -> bottom_height_of img = height img / 20.
Proof.
  intros Hh. unfold bottom_height_of, int. cbn [Qnum Qden Qmult inject_Z].
  rewrite Z.quot_div_nonneg by lia.
  change (Z.pos (1 * 100)) with 100.
  replace (height img * 5) with (height img * 5 + 0) by lia.
  symmetry. apply (Z.div_unique _ _ _ ((height img mod 20) * 5)).
  - pose proof (Z.mod_pos_bound (height img) 20 ltac:(lia)). lia.
  - pose proof (Z.div_mod (height img) 20 ltac:(lia)). lia.
Qed.

Lemma bottom_pixels_length (img : image) :
  well_formed img ->
  Z.of_nat (length (bottom_pixels img)) = width img * (height img / 20).
Proof.
  intros (Hw & Hh & Hlen). unfold bottom_pixels, crop_bottom.
  rewrite (bottom_height_quotient img Hh), length_drop.
  pose proof (Z.div_pos (height img) 20 Hh ltac:(lia)) as Hq0.
  assert (Hq : height img / 20 <= height img)
    by (apply Z.div_le_upper_bound; lia).
  assert (Hsub : 0 <= width img * (height img - height img / 20)) by nia.
  rewrite Nat2Z.inj_sub.
  - rewrite Hlen, Z2Nat.id by exact Hsub. lia.
  - apply Nat2Z.inj_le. rewrite Hlen, Z2Nat.id by exact Hsub. nia.
Qed.

(** X3.  An image less than 20 pixels high has an empty bottom band
    ([int(height * 0.05)] is 0), so [get_bottom_color] raises
    [ZeroDivisionError] on it. *)
Theorem get_bottom_color_short_image
    (imgs : gmap string image) (image_path : string) (img : image) :
  imgs !! image_path = Some img ->
  well_formed img ->
  height img < 20 ->
  get_bottom_color imgs image_path = Raise ZeroDivisionError.
Proof.
  intros Himg Hwf Hshort.
  pose proof (bottom_pixels_length img Hwf) as Hlen.
  destruct Hwf as (Hw & Hh & _).
  rewrite (Z.div_small (height img) 20) in Hlen by lia.
  unfold get_bottom_color, Image_open. rewrite Himg. cbn [mbind result_bind].
  destruct (bottom_pixels img) as [| p pixels]; [reflexivity |].
  simpl in Hlen. lia.
Qed.

Lemma get_bottom_color_short_image_witness :
  get_bottom_color {[ "tiny.png"%string := Image 2 3 (replicate 6 (10, 200, 10)) ]} "tiny.png"
  = Raise ZeroDivisionError.
Proof.
  apply (get_bottom_color_short_image _ "tiny.png" (Image 2 3 (replicate 6 (10, 200, 10)))).
  - reflexivity.
  - vm_compute. repeat split; discriminate.
  - reflexivity.
Defined.

(** X4.  On an image at least 20 pixels high the bottom band is the last
    [height / 20] rows, [width * (height / 20)] pixels and at least one, and
    [get_bottom_color] returns a label and a colour. *)
Theorem get_bottom_color_tall_image
    (imgs : gmap string image) (image_path : string) (img : image) :
  imgs !! image_path = Some img ->
  well_formed img ->
  20 <= height img ->
  Z.of_nat (length (bottom_pixels img)) = width img * (height img / 20)
  /\ 1 <= width img * (height img / 20)
  /\ exists l rgb, get_bottom_color imgs image_path = Ok (l, rgb).
Proof.
  intros Himg Hwf Htall.
  pose proof (bottom_pixels_length img Hwf) as Hlen.
  destruct Hwf as (Hw & Hh & _).
  assert (Hq : 1 <= height img / 20) by (apply Z.div_le_lower_bound; lia).
  split; [exact Hlen | split; [nia |]].
  assert (Hne : bottom_pixels img <> []).
  { intros E. rewrite E in Hlen. simpl in Hlen. nia. }
  pose proof (color_of_pixels_nonempty _ Hne) as Hcol.
  unfold get_bottom_color, Image_open. rewrite Himg. cbn [mbind result_bind].
  destruct (band_averages (bottom_pixels img)) as [[avg_r avg_g] avg_b].
  rewrite Hcol. eauto.
Qed.

Lemma get_bottom_color_tall_image_witness :
  Z.of_nat (length (bottom_pixels reddish_image)) = 4 * (20 / 20)
  /\ 1 <= 4 * (20 / 20)
  /\ exists l rgb,
       get_bottom_color {[ "a.png"%string := reddish_image ]} "a.png" = Ok (l, rgb).
Proof.
  apply (get_bottom_color_tall_image {[ "a.png"%string := reddish_image ]} "a.png"
           reddish_image).
  - reflexivity.
  - vm_compute. repeat split; discriminate.
  - vm_compute. discriminate.
Defined.

(** ** The returned colour *)

Lemma int_quotient (sum count : Z) :
  0 <= sum -> 0 < count -> int (inject_Z sum / inject_Z count) = sum / count.
Proof.
  intros Hs Hc. rewrite int_floor by (apply average_nonneg; assumption).
  symmetry. apply Zdiv_Qdiv.
Qed.

Lemma channel_sums_bounds (pixels : list pixel) :
  Forall valid_pixel pixels ->
  let '(r_sum, g_sum, b_sum) := channel_sums pixels in
  0 <= r_sum <= 255 * Z.of_nat (length pixels)
  /\ 0 <= g_sum <= 255 * Z.of_nat (length pixels)
  /\ 0 <= b_sum <= 255 * Z.of_nat (length pixels).
Proof.
  induction 1 as [| [[r g] b] pixels Hp _ IH].
  - simpl. lia.
  - unfold channel_sums. cbn [fold_left]. rewrite channel_sums_fold.
    destruct (channel_sums pixels) as [[rs gs] bs].
    unfold valid_pixel in Hp. cbn [length]. lia.
Qed.

Lemma quotient_range (sum count : Z) :
  0 < count -> 0 <= sum <= 255 * count -> 0 <= sum / count <= 255.
Proof.
  intros Hc [Hlo Hhi]. split.
  - apply Z.div_pos; lia.
  - apply Z.div_le_upper_bound; lia.
Qed.

(** X5.  On a band of 8-bit pixels the three integers [get_bottom_color]
    returns are the integer quotients of the channel sums by the pixel count,
    and each lies between 0 and 255. *)
Theorem get_bottom_color_rgb_range
    (imgs : gmap string image) (image_path : string) (img : image)
    (l : label) (r g b : Z) :
  imgs !! image_path = Some img ->
  Forall valid_pixel (bottom_pixels img) ->
  get_bottom_color imgs image_path = Ok (l, (r, g, b)) ->
  (let '(r_sum, g_sum, b_sum) := channel_sums (bottom_pixels img) in
   let pixel_count := Z.of_nat (length (bottom_pixels img)) in
   r = r_sum / pixel_count /\ g = g_sum / pixel_count /\ b = b_sum / pixel_count)
  /\ 0 <= r <= 255 /\ 0 <= g <= 255 /\ 0 <= b <= 255.
Proof.
  intros Himg Hvalid Hget.
  unfold get_bottom_color, Image_open in Hget. rewrite Himg in Hget.
  cbn [mbind result_bind] in Hget.
  pose proof (channel_sums_bounds _ Hvalid) as Hsum.
  unfold color_of_pixels in Hget.
  destruct (channel_sums (bottom_pixels img)) as [[r_sum g_sum] b_sum].
  destruct (bottom_pixels img) as [| p pixels] eqn:E; [discriminate Hget |].
  set (n := Z.of_nat (length (p :: pixels))) in *.
  assert (Hn : 0 < n) by (unfold n; simpl; lia).
  rewrite !truediv_nonzero in Hget by lia. cbn [mbind result_bind] in Hget.
  destruct Hsum as ((Hr0 & Hr1) & (Hg0 & Hg1) & (Hb0 & Hb1)).
  rewrite !int_quotient in Hget by assumption.
  injection Hget as _ <- <- <-.
  split; [repeat split; reflexivity |].
  repeat split; apply quotient_range; (assumption || split; assumption).
Qed.

Lemma get_bottom_color_rgb_range_witness :
  (let '(r_sum, g_sum, b_sum) := channel_sums (bottom_pixels reddish_image) in
   let pixel_count := Z.of_nat (length (bottom_pixels reddish_image)) in
   200 = r_sum / pixel_count /\ 100 = g_sum / pixel_count /\ 50 = b_sum / pixel_count)
  /\ 0 <= 200 <= 255 /\ 0 <= 100 <= 255 /\ 0 <= 50 <= 255.
Proof.
  apply (get_bottom_color_rgb_range {[ "a.png"%string := reddish_image ]} "a.png"
           reddish_image Orange 200 100 50).
  - reflexivity.
  - vm_compute. repeat constructor; discriminate.
  - vm_compute. reflexivity.
Defined.

Lemma Qlt_bool_comp (x x' y y' : Q) :
  (x == x')%Q -> (y == y')%Q -> Qlt_bool x y = Qlt_bool x' y'.
Proof. intros Hx Hy. unfold Qlt_bool. by rewrite Hx, Hy. Qed.

Lemma Qle_bool_comp (x x' y y' : Q) :
  (x == x')%Q -> (y == y')%Q -> Qle_bool x y = Qle_bool x' y'.
Proof. intros Hx Hy. by rewrite Hx, Hy. Qed.

(** [classify] does not depend on how the three rationals are written. *)
Lemma classify_comp (r r' g g' b b' : Q) :
  (r == r')%Q -> (g == g')%Q -> (b == b')%Q -> classify r g b = classify r' g' b'.
Proof.
  intros Hr Hg Hb. unfold classify. cbv zeta.
  assert (Hd : (g - r == g' - r')%Q) by (by rewrite Hr, Hg).
  assert (Ha : (Qabs (g - r) == Qabs (g' - r'))%Q) by (by rewrite Hd).
  assert (Hs : (Qmin r g - b == Qmin r' g' - b')%Q).
  { assert (Hm : (Qmin r g == Qmin r' g')%Q).
    { destruct (Q.min_spec r g) as [[H1 ->] | [H1 ->]];
        destruct (Q.min_spec r' g') as [[H2 ->] | [H2 ->]];
        try assumption; rewrite ?Hr, ?Hg in H1; lra. }
    by rewrite Hm, Hb. }
  rewrite (Qle_bool_comp MIN_DIFF MIN_DIFF _ _ (Qeq_refl _) Hd).
  rewrite (Qlt_bool_comp b b' g g' Hb Hg).
  rewrite (Qlt_bool_comp MIN_VALUE MIN_VALUE g g' (Qeq_refl _) Hg).
  rewrite (Qle_bool_comp _ _ (- MIN_DIFF) (- MIN_DIFF) Hd (Qeq_refl _)).
  rewrite (Qlt_bool_comp b b' r r' Hb Hr).
  rewrite (Qlt_bool_comp MIN_VALUE MIN_VALUE r r' (Qeq_refl _) Hr).
  rewrite (Qlt_bool_comp _ _ MIN_DIFF MIN_DIFF Ha (Qeq_refl _)).
  rewrite (Qlt_bool_comp 30 30 _ _ (Qeq_refl _) Hs).
  assert (H2 : (r - 2 == r' - 2)%Q) by (by rewrite Hr).
  rewrite (Qle_bool_comp _ _ g g' H2 Hg).
  reflexivity.
Qed.

Lemma channel_sums_replicate (n : nat) (r g b : Z) :
  channel_sums (replicate n (r, g, b)) = (Z.of_nat n * r, Z.of_nat n * g, Z.of_nat n * b).
Proof.
  induction n as [| n IH].
  - reflexivity.
  - unfold channel_sums. cbn [replicate fold_left]. rewrite channel_sums_fold, IH.
    f_equal; [f_equal |]; lia.
Qed.

Lemma flat_average (n c : Z) : 0 < n -> (inject_Z (n * c) / inject_Z n == inject_Z c)%Q.
Proof.
  intros Hn. rewrite inject_Z_mult. field.
  unfold Qeq. simpl. lia.
Qed.

(** X6.  A bottom band of one single 8-bit colour [(r, g, b)] is classified
    as that colour is by the rule chain, and the colour returned is
    [(r, g, b)] itself. *)
Theorem get_bottom_color_flat_band
    (imgs : gmap string image) (image_path : string) (img : image)
    (n : nat) (r g b : Z) :
  imgs !! image_path = Some img ->
  bottom_pixels img = replicate (S n) (r, g, b) ->
  valid_pixel (r, g, b) ->
  get_bottom_color imgs image_path
  = Ok (classify (inject_Z r) (inject_Z g) (inject_Z b), (r, g, b)).
Proof.
  intros Himg Hband (Hr & Hg & Hb).
  unfold get_bottom_color, Image_open. rewrite Himg. cbn [mbind result_bind].
  rewrite Hband. unfold color_of_pixels.
  rewrite channel_sums_replicate, length_replicate.
  set (k := Z.of_nat (S n)). assert (Hk : 0 < k) by (unfold k; lia).
  rewrite !truediv_nonzero by lia. cbn [mbind result_bind].
  rewrite !int_quotient by nia.
  rewrite !(Z.mul_comm k), !Z.div_mul by lia.
  rewrite !(Z.mul_comm _ k).
  rewrite (classify_comp _ (inject_Z r) _ (inject_Z g) _ (inject_Z b));
    [reflexivity | | |]; apply flat_average; exact Hk.
Qed.

Lemma get_bottom_color_flat_band_witness :
  get_bottom_color demo_images "SP23/b.png"
  = Ok (classify (inject_Z 200) (inject_Z 192) (inject_Z 50), (200, 192, 50)).
Proof.
  apply (get_bottom_color_flat_band demo_images "SP23/b.png"
           (flat_image (200, 192, 50)) 0 200 192 50).
  - reflexivity.
  - reflexivity.
  - vm_compute. repeat split; discriminate.
Defined.

(** ** The analyzer *)

Lemma analyze_one_label (imgs : gmap string image) (green orange unknown : list string)
    (p : string) :
  analyze_one imgs (green, orange, unknown) p
  = match label_of imgs p with
    | Green => (green ++ [p], orange, unknown)
    | Orange => (green, orange ++ [p], unknown)
    | Unknown => (green, orange, unknown ++ [p])
    end.
Proof.
  unfold analyze_one, label_of.
  destruct (get_bottom_color imgs p) as [[[| |] rgb] | e |]; reflexivity.
Qed.

Lemma analyze_fold (imgs : gmap string image) (png_files green orange unknown : list string) :
  fold_left (analyze_one imgs) png_files (green, orange, unknown)
  = (green ++ filter (fun p => label_of imgs p = Green) png_files,
     orange ++ filter (fun p => label_of imgs p = Orange) png_files,
     unknown ++ filter (fun p => label_of imgs p = Unknown) png_files).
Proof.
  revert green orange unknown.
  induction png_files as [| p png_files IH]; intros green orange unknown.
  - cbn [fold_left]. rewrite !filter_nil, !app_nil_r. reflexivity.
  - cbn [fold_left]. rewrite !filter_cons, analyze_one_label.
    destruct (label_of imgs p); rewrite IH;
      repeat (destruct (decide _); try discriminate; try contradiction);
      rewrite <- ?app_assoc; reflexivity.
Qed.

Lemma analyze_portraits_spec (w : world) (year_folder : string) :
  analyze_portraits w year_folder
  = (w' ← write_artifact w year_folder (analysis (images w) (glob_png w year_folder));
     Ok (w', analysis (images w) (glob_png w year_folder))).
Proof.
  unfold analyze_portraits. rewrite analyze_fold. reflexivity.
Qed.

Lemma analyze_portraits_Ok (w w' : world) (year_folder : string) (g : groups) :
  analyze_portraits w year_folder = Ok (w', g) ->
  exists png_files,
    folders w !! year_folder = Some png_files
    /\ (year_folder ∉ read_only w)
    /\ g = analysis (images w) png_files
    /\ w' = set_artifact w year_folder g.
Proof.
  rewrite analyze_portraits_spec.
  destruct (write_artifact w year_folder _) as [w'' | e |] eqn:Hw;
    cbn [mbind result_bind]; [| discriminate | discriminate].
  intros [= <- <-]. apply write_artifact_Ok in Hw. destruct Hw as ([pngs Hdir] & Hrw & ->).
  exists pngs. unfold glob_png. rewrite Hdir. cbn [default]. auto.
Qed.

Lemma label_split_perm (imgs : gmap string image) (png_files : list string) :
  filter (fun p => label_of imgs p = Green) png_files
  ++ filter (fun p => label_of imgs p = Orange) png_files
  ++ filter (fun p => label_of imgs p = Unknown) png_files
  ≡ₚ png_files.
Proof.
  induction png_files as [| p png_files IH]; [reflexivity |].
  rewrite !filter_cons.
  destruct (label_of imgs p);
    repeat (destruct (decide _); try discriminate; try contradiction).
  - cbn [app]. by constructor.
  - cbn [app]. rewrite <- Permutation_middle. by constructor.
  - rewrite app_assoc, <- Permutation_middle, <- app_assoc. by constructor.
Qed.

Lemma label_of_readable (imgs : gmap string image) (p : string) :
  label_of imgs p <> Unknown -> readable imgs p.
Proof.
  unfold label_of, get_bottom_color, Image_open, readable.
  destruct (imgs !! p) as [img |]; cbn [mbind result_bind]; [| contradiction].
  intros Hl. exists img. split; [reflexivity |].
  intros E. rewrite E in Hl. apply Hl. reflexivity.
Qed.

(** X7.  What [analyze_portraits] returns is what it wrote as the artifact of
    the folder; its three collections together are a rearrangement of the
    directory listing, each path filed under the label [get_bottom_color]
    gives it (UNKNOWN when it raises); the three counts are the sizes of the
    collections and add up to [total], the length of the listing. *)
Theorem analyze_portraits_partitions
    (w w' : world) (year_folder : string) (g : groups) :
  analyze_portraits w year_folder = Ok (w', g) ->
  artifacts w' !! year_folder = Some g
  /\ green_group g ++ orange_group g ++ unknown_group g ≡ₚ glob_png w year_folder
  /\ (forall p, p ∈ green_group g <-> p ∈ glob_png w year_folder /\ label_of (images w) p = Green)
  /\ (forall p, p ∈ orange_group g <-> p ∈ glob_png w year_folder /\ label_of (images w) p = Orange)
  /\ (forall p, p ∈ unknown_group g <-> p ∈ glob_png w year_folder /\ label_of (images w) p = Unknown)
  /\ green_count (group_stats g) = Z.of_nat (length (green_group g))
  /\ orange_count (group_stats g) = Z.of_nat (length (orange_group g))
  /\ unknown_count (group_stats g) = Z.of_nat (length (unknown_group g))
  /\ total (group_stats g) = Z.of_nat (length (glob_png w year_folder))
  /\ green_count (group_stats g) + orange_count (group_stats g)
     + unknown_count (group_stats g) = total (group_stats g).
Proof.
  intros Hrun. destruct (analyze_portraits_Ok _ _ _ _ Hrun) as (pngs & Hdir & _ & -> & ->).
  unfold glob_png. rewrite Hdir. cbn [default].
  pose proof (label_split_perm (images w) pngs) as Hperm.
  split; [apply lookup_insert_eq |].
  split; [exact Hperm |].
  split; [intros p; cbn [analysis green_group]; rewrite list_elem_of_filter; tauto |].
  split; [intros p; cbn [analysis orange_group]; rewrite list_elem_of_filter; tauto |].
  split; [intros p; cbn [analysis unknown_group]; rewrite list_elem_of_filter; tauto |].
  cbn [analysis group_stats green_count orange_count unknown_count total
       green_group orange_group unknown_group].
  repeat (split; [reflexivity |]).
  apply Permutation_length in Hperm. rewrite !length_app in Hperm. lia.
Qed.

Lemma analyze_portraits_partitions_witness :
  artifacts (set_artifact demo_world "SP23" (analysis demo_images (glob_png demo_world "SP23")))
    !! "SP23"%string = Some (analysis demo_images (glob_png demo_world "SP23"))
  /\ ["SP23/a.png"] ++ ["SP23/c.png"; "SP23/b.png"] ++ []
     ≡ₚ ["SP23/c.png"; "SP23/b.png"; "SP23/a.png"]%string
  /\ (forall p, p ∈ ["SP23/a.png"%string]
                <-> p ∈ glob_png demo_world "SP23" /\ label_of demo_images p = Green)
  /\ (forall p, p ∈ ["SP23/c.png"; "SP23/b.png"]%string
                <-> p ∈ glob_png demo_world "SP23" /\ label_of demo_images p = Orange)
  /\ (forall p, p ∈ @nil string
                <-> p ∈ glob_png demo_world "SP23" /\ label_of demo_images p = Unknown)
  /\ 1 = Z.of_nat (length ["SP23/a.png"%string])
  /\ 2 = Z.of_nat (length ["SP23/c.png"; "SP23/b.png"]%string)
  /\ 0 = Z.of_nat (length (@nil string))
  /\ 3 = Z.of_nat (length (glob_png demo_world "SP23"))
  /\ 1 + 2 + 0 = 3.
Proof.
  apply (analyze_portraits_partitions demo_world
           (set_artifact demo_world "SP23" (analysis demo_images (glob_png demo_world "SP23")))
           "SP23" (analysis demo_images (glob_png demo_world "SP23"))).
  vm_compute. reflexivity.
Defined.

(** X8.  A listed file that does not open, or whose bottom band is empty, is
    filed under UNKNOWN and the batch goes on; conversely every member of
    GREEN and of ORANGE opens and has a non-empty bottom band. *)
Theorem analyze_portraits_routes_errors_to_unknown
    (w w' : world) (year_folder : string) (g : groups) :
  analyze_portraits w year_folder = Ok (w', g) ->
  (forall p, p ∈ glob_png w year_folder -> ~ readable (images w) p -> p ∈ unknown_group g)
  /\ (forall p, p ∈ green_group g ++ orange_group g -> readable (images w) p).
Proof.
  intros Hrun. destruct (analyze_portraits_Ok _ _ _ _ Hrun) as (pngs & Hdir & _ & -> & _).
  unfold glob_png. rewrite Hdir. cbn [default analysis green_group orange_group unknown_group].
  split.
  - intros p Hp Hnr. apply list_elem_of_filter. split; [| exact Hp].
    destruct (decide (label_of (images w) p = Unknown)) as [E | E]; [exact E |].
    exfalso. apply Hnr, label_of_readable, E.
  - intros p Hp. apply elem_of_app in Hp.
    destruct Hp as [Hp | Hp]; apply list_elem_of_filter in Hp; destruct Hp as [E _];
      apply label_of_readable; rewrite E; discriminate.
Qed.

Lemma analyze_portraits_routes_errors_to_unknown_witness :
  (forall p, p ∈ glob_png demo_world "SP23" -> ~ readable (images demo_world) p ->
             p ∈ unknown_group (analysis demo_images (glob_png demo_world "SP23")))
  /\ (forall p, p ∈ green_group (analysis demo_images (glob_png demo_world "SP23"))
                    ++ orange_group (analysis demo_images (glob_png demo_world "SP23")) ->
                readable (images demo_world) p).
Proof.
  apply (analyze_portraits_routes_errors_to_unknown demo_world
           (set_artifact demo_world "SP23" (analysis demo_images (glob_png demo_world "SP23")))
           "SP23" (analysis demo_images (glob_png demo_world "SP23"))).
  vm_compute. reflexivity.
Defined.

(** X9.  Each collection lists its files in the order of the directory
    listing, and when the listing names no file twice no path is in two
    collections or twice in one. *)
Theorem analyze_portraits_keeps_order_and_disjoint
    (w w' : world) (year_folder : string) (g : groups) :
  analyze_portraits w year_folder = Ok (w', g) ->
  green_group g `sublist_of` glob_png w year_folder
  /\ orange_group g `sublist_of` glob_png w year_folder
  /\ unknown_group g `sublist_of` glob_png w year_folder
  /\ (NoDup (glob_png w year_folder) ->
      NoDup (green_group g ++ orange_group g ++ unknown_group g)).
Proof.
  intros Hrun. destruct (analyze_portraits_Ok _ _ _ _ Hrun) as (pngs & Hdir & _ & -> & _).
  unfold glob_png. rewrite Hdir. cbn [default analysis green_group orange_group unknown_group].
  repeat (split; [apply sublist_filter |]).
  intros Hnd. rewrite label_split_perm. exact Hnd.
Qed.

Lemma analyze_portraits_keeps_order_and_disjoint_witness :
  green_group (analysis demo_images (glob_png demo_world "SP23"))
    `sublist_of` glob_png demo_world "SP23"
  /\ orange_group (analysis demo_images (glob_png demo_world "SP23"))
       `sublist_of` glob_png demo_world "SP23"
  /\ unknown_group (analysis demo_images (glob_png demo_world "SP23"))
       `sublist_of` glob_png demo_world "SP23"
  /\ (NoDup (glob_png demo_world "SP23") ->
      NoDup (green_group (analysis demo_images (glob_png demo_world "SP23"))
             ++ orange_group (analysis demo_images (glob_png demo_world "SP23"))
             ++ unknown_group (analysis demo_images (glob_png demo_world "SP23")))).
Proof.
  apply (analyze_portraits_keeps_order_and_disjoint demo_world
           (set_artifact demo_world "SP23" (analysis demo_images (glob_png demo_world "SP23")))
           "SP23").
  vm_compute. reflexivity.
Defined.

(** ** More on the corrector *)


Lemma qualifies_mono (imgs : gmap string image) (t1 t2 : Q) (p : string) :
  (t1 <= t2)%Q -> qualifies imgs t2 p -> qualifies imgs t1 p.
Proof.
  intros Ht. unfold qualifies. destruct (imgs !! p) as [img |]; [| tauto].
  destruct (band_averages (bottom_pixels img)) as [[avg_r avg_g] avg_b].
  intros [Hne H]. split; [exact Hne | lra].
Qed.

Section filter_compare.
Context (P R : string -> Prop) `{forall p, Decision (P p)} `{forall p, Decision (R p)}.

Lemma filter_length_mono (l : list string) :
  (forall p, P p -> R p) -> (length (filter P l) <= length (filter R l))%nat.
Proof.
  intros Himp. induction l as [| x l IH]; [reflexivity |].
  rewrite !filter_cons. destruct (decide (P x)) as [Hx | Hx].
  - destruct (decide (R x)) as [_ | Hn]; [simpl; lia | exfalso; auto].
  - destruct (decide (R x)); simpl; lia.
Qed.


End filter_compare.

Lemma elem_of_list_sort (l : list string) (p : string) : p ∈ list_sort l <-> p ∈ l.
Proof. by rewrite list_sort_perm. Qed.

(** X11.  Lowering the threshold never moves less: of two runs on the same
    artifact the one with the smaller threshold returns at least the count
    of the other, every member it leaves in ORANGE the other leaves there
    too, and every member the other puts in GREEN it puts there too. *)
Theorem apply_auto_corrections_threshold_monotone
    (w w1 w2 : world) (year_folder : string) (t1 t2 : Q) (n1 n2 : Z) :
  (t1 <= t2)%Q ->
  apply_auto_corrections w year_folder t1 = Ok (w1, n1) ->
  apply_auto_corrections w year_folder t2 = Ok (w2, n2) ->
  exists g1 g2,
    artifacts w1 !! year_folder = Some g1
    /\ artifacts w2 !! year_folder = Some g2
    /\ n2 <= n1
    /\ (forall p, p ∈ green_group g2 -> p ∈ green_group g1)
    /\ (forall p, p ∈ orange_group g1 -> p ∈ orange_group g2).
Proof.
  intros Ht Hrun1 Hrun2.
  destruct (artifacts w !! year_folder) as [g |] eqn:Hg.
  2: { unfold apply_auto_corrections, read_artifact in Hrun1. rewrite Hg in Hrun1.
       discriminate Hrun1. }
  destruct (apply_auto_corrections_Ok _ _ _ _ _ _ Hg Hrun1) as (_ & _ & -> & ->).
  destruct (apply_auto_corrections_Ok _ _ _ _ _ _ Hg Hrun2) as (_ & _ & -> & ->).
  exists (corrected (images w) t1 g), (corrected (images w) t2 g).
  split; [apply lookup_insert_eq |].
  split; [apply lookup_insert_eq |].
  split.
  { apply inj_le. unfold moved_members.
    apply filter_length_mono. intros p. apply qualifies_mono, Ht. }
  split.
  - intros p. cbn [corrected green_group]. rewrite !elem_of_list_sort, !elem_of_app.
    unfold moved_members. rewrite !list_elem_of_filter.
    intros [Hp | [Hq Hp]]; [tauto |].
    right. split; [exact (qualifies_mono _ _ _ _ Ht Hq) | exact Hp].
  - intros p. cbn [corrected orange_group]. rewrite !elem_of_list_sort.
    unfold kept_members. rewrite !list_elem_of_filter.
    intros [Hq Hp]. split; [| exact Hp].
    intros Hq2. exact (Hq (qualifies_mono _ _ _ _ Ht Hq2)).
Qed.

Lemma apply_auto_corrections_threshold_monotone_witness :
  exists g1 g2,
    artifacts (set_artifact demo_world "SP23" (corrected demo_images (-200 # 1) demo_groups))
      !! "SP23"%string = Some g1
    /\ artifacts (set_artifact demo_world "SP23" (corrected demo_images (-10 # 1) demo_groups))
         !! "SP23"%string = Some g2
    /\ 1 <= 2
    /\ (forall p, p ∈ green_group g2 -> p ∈ green_group g1)
    /\ (forall p, p ∈ orange_group g1 -> p ∈ orange_group g2).
Proof.
  apply (apply_auto_corrections_threshold_monotone demo_world _ _ "SP23"
           (-200 # 1) (-10 # 1) 2 1).
  - vm_compute. discriminate.
  - vm_compute. reflexivity.
  - vm_compute. reflexivity.
Defined.

(** X12.  The corrector loses no path and invents none: the three
    collections after a run are, together, a rearrangement of the three
    before it, so when no path was listed twice before none is after. *)
Theorem apply_auto_corrections_keeps_members
    (w w' : world) (year_folder : string) (threshold : Q) (g : groups) (n : Z) :
  artifacts w !! year_folder = Some g ->
  apply_auto_corrections w year_folder threshold = Ok (w', n) ->
  exists g',
    artifacts w' !! year_folder = Some g'
    /\ green_group g' ++ orange_group g' ++ unknown_group g'
       ≡ₚ green_group g ++ orange_group g ++ unknown_group g
    /\ (NoDup (green_group g ++ orange_group g ++ unknown_group g) ->
        NoDup (green_group g' ++ orange_group g' ++ unknown_group g')).
Proof.
  intros Hg Hrun.
  destruct (apply_auto_corrections_Ok _ _ _ _ _ _ Hg Hrun) as (_ & _ & -> & _).
  exists (corrected (images w) threshold g).
  split; [apply lookup_insert_eq |].
  assert (Hperm : green_group (corrected (images w) threshold g)
                  ++ orange_group (corrected (images w) threshold g)
                  ++ unknown_group (corrected (images w) threshold g)
                  ≡ₚ green_group g ++ orange_group g ++ unknown_group g).
  { cbn [corrected green_group orange_group unknown_group].
    rewrite !list_sort_perm.
    pose proof (filter_split_perm (qualifies (images w) threshold) (orange_group g))
      as Hsplit.
    fold (kept_members (images w) threshold g) in Hsplit.
    fold (moved_members (images w) threshold g) in Hsplit.
    set (m := moved_members (images w) threshold g) in *.
    set (k := kept_members (images w) threshold g) in *.
    rewrite Hsplit.
    rewrite <- !app_assoc. apply Permutation_app_head.
    rewrite !app_assoc. apply Permutation_app_tail. apply Permutation_app_comm. }
  split; [exact Hperm |].
  intros Hnd. rewrite Hperm. exact Hnd.
Qed.

Lemma apply_auto_corrections_keeps_members_witness :
  exists g',
    artifacts (set_artifact demo_world "SP23" (corrected demo_images (-10 # 1) demo_groups))
      !! "SP23"%string = Some g'
    /\ green_group g' ++ orange_group g' ++ unknown_group g'
       ≡ₚ green_group demo_groups ++ orange_group demo_groups ++ unknown_group demo_groups
    /\ (NoDup (green_group demo_groups ++ orange_group demo_groups
               ++ unknown_group demo_groups) ->
        NoDup (green_group g' ++ orange_group g' ++ unknown_group g')).
Proof.
  apply (apply_auto_corrections_keeps_members demo_world _ "SP23" (-10 # 1) demo_groups 1).
  - reflexivity.
  - vm_compute. reflexivity.
Defined.

Lemma set_artifact_frame (w : world) (year_folder : string) (g : groups) :
  same_but_artifact year_folder w (set_artifact w year_folder g).
Proof.
  unfold same_but_artifact, set_artifact. cbn [folders images read_only pdfs artifacts].
  repeat (split; [reflexivity |]).
  intros other Hne. by apply lookup_insert_ne.
Qed.

(** X13.  The analyzer and the corrector after it write the artifact of their
    own folder and nothing else: the folders, the images, the write
    protection, the saved PDFs and the artifacts of all other folders are as
    before. *)
Theorem analyzer_and_corrector_touch_one_artifact
    (w w1 w2 : world) (year_folder : string) (threshold : Q) (g : groups) (n : Z) :
  analyze_portraits w year_folder = Ok (w1, g) ->
  apply_auto_corrections w1 year_folder threshold = Ok (w2, n) ->
  same_but_artifact year_folder w w1 /\ same_but_artifact year_folder w1 w2.
Proof.
  intros Han Hrun.
  destruct (analyze_portraits_Ok _ _ _ _ Han) as (pngs & _ & _ & _ & ->).
  split; [apply set_artifact_frame |].
  assert (Hg : artifacts (set_artifact w year_folder g) !! year_folder = Some g)
    by apply lookup_insert_eq.
  destruct (apply_auto_corrections_Ok _ _ _ _ _ _ Hg Hrun) as (_ & _ & -> & _).
  apply set_artifact_frame.
Qed.

Lemma analyzer_and_corrector_touch_one_artifact_witness :
  same_but_artifact "SP23" demo_world
    (set_artifact demo_world "SP23" (analysis demo_images (glob_png demo_world "SP23")))
  /\ same_but_artifact "SP23"
       (set_artifact demo_world "SP23" (analysis demo_images (glob_png demo_world "SP23")))
       (set_artifact
          (set_artifact demo_world "SP23" (analysis demo_images (glob_png demo_world "SP23")))
          "SP23"
          (corrected demo_images (-10 # 1) (analysis demo_images (glob_png demo_world "SP23")))).
Proof.
  apply (analyzer_and_corrector_touch_one_artifact demo_world _ _ "SP23" (-10 # 1)
           (analysis demo_images (glob_png demo_world "SP23")) 1).
  - vm_compute. reflexivity.
  - vm_compute. reflexivity.
Defined.

(** ** The analyzer followed by the corrector *)

Lemma label_orange_diff (imgs : gmap string image) (p : string) :
  label_of imgs p = Orange ->
  exists img,
    imgs !! p = Some img /\ bottom_pixels img <> []
    /\ (let '(avg_r, avg_g, _) := band_averages (bottom_pixels img) in
        avg_g - avg_r < -(2))%Q.
Proof.
  unfold label_of, get_bottom_color, Image_open.
  destruct (imgs !! p) as [img |]; cbn [mbind result_bind]; [| discriminate].
  intros Hl. exists img. split; [reflexivity |].
  assert (Hne : bottom_pixels img <> []).
  { intros E. rewrite E in Hl. discriminate Hl. }
  split; [exact Hne |].
  pose proof (color_of_pixels_nonempty _ Hne) as Hcol.
  destruct (band_averages (bottom_pixels img)) as [[avg_r avg_g] avg_b].
  rewrite Hcol in Hl.
  pose proof (classify_sides avg_r avg_g avg_b) as Hs. rewrite Hl in Hs.
  lra.
Qed.

Lemma orange_label_not_qualified (imgs : gmap string image) (threshold : Q) (p : string) :
  (-(2) <= threshold)%Q -> label_of imgs p = Orange -> ~ qualifies imgs threshold p.
Proof.
  intros Ht Hl. destruct (label_orange_diff imgs p Hl) as (img & Himg & _ & Hd).
  unfold qualifies. rewrite Himg.
  destruct (band_averages (bottom_pixels img)) as [[avg_r avg_g] avg_b].
  intros [_ Hq]. lra.
Qed.

(** X14.  With a threshold of [-2] or more the corrector, run on the
    artifact the analyzer has just written, moves nothing and returns 0:
    every file the classifier calls ORANGE has [avg_g - avg_r] below [-2].
    The artifact it rewrites holds the analyzer's collections, sorted. *)
Theorem corrector_after_analyzer_high_threshold
    (w w1 : world) (year_folder : string) (threshold : Q) (g : groups) :
  (-(2) <= threshold)%Q ->
  analyze_portraits w year_folder = Ok (w1, g) ->
  exists w2 g2,
    apply_auto_corrections w1 year_folder threshold = Ok (w2, 0)
    /\ artifacts w2 !! year_folder = Some g2
    /\ green_group g2 = list_sort (green_group g)
    /\ orange_group g2 = list_sort (orange_group g)
    /\ unknown_group g2 = unknown_group g
    /\ group_stats g2 = group_stats g.
Proof.
  intros Ht Han.
  destruct (analyze_portraits_Ok _ _ _ _ Han) as (pngs & Hdir & Hrw & Hgeq & ->).
  assert (Hg : artifacts (set_artifact w year_folder g) !! year_folder = Some g)
    by apply lookup_insert_eq.
  assert (Hnone : Forall (fun p => ~ qualifies (images w) threshold p) (orange_group g)).
  { rewrite Hgeq. cbn [analysis orange_group]. apply Forall_forall. intros p Hp.
    apply list_elem_of_filter in Hp. destruct Hp as [Hl _].
    apply orange_label_not_qualified; assumption. }
  assert (Hm : moved_members (images w) threshold g = [])
    by apply (filter_none (qualifies (images w) threshold)), Hnone.
  assert (Hk : kept_members (images w) threshold g = orange_group g)
    by apply (filter_all_not (qualifies (images w) threshold)), Hnone.
  exists (set_artifact (set_artifact w year_folder g) year_folder
            (corrected (images w) threshold g)),
         (corrected (images w) threshold g).
  split.
  { rewrite (apply_auto_corrections_spec _ _ _ _ Hg). cbn [set_artifact images].
    rewrite Hm.
    assert (Hw : write_artifact (set_artifact w year_folder g) year_folder
                   (corrected (images w) threshold g)
                 = Ok (set_artifact (set_artifact w year_folder g) year_folder
                         (corrected (images w) threshold g))).
    { apply write_artifact_Ok. cbn [set_artifact folders read_only].
      rewrite Hdir. eauto. }
    unfold set_artifact in Hw |- *. cbn [folders images artifacts read_only pdfs] in Hw |- *.
    rewrite Hw. reflexivity. }
  split; [apply lookup_insert_eq |].
  unfold corrected. rewrite Hm, Hk, app_nil_r.
  cbn [green_group orange_group unknown_group group_stats].
  repeat (split; [reflexivity |]).
  rewrite Hgeq. reflexivity.
Qed.

Lemma corrector_after_analyzer_high_threshold_witness :
  exists w2 g2,
    apply_auto_corrections
      (set_artifact demo_world "SP23" (analysis demo_images (glob_png demo_world "SP23")))
      "SP23" (-2 # 1) = Ok (w2, 0)
    /\ artifacts w2 !! "SP23"%string = Some g2
    /\ green_group g2
       = list_sort (green_group (analysis demo_images (glob_png demo_world "SP23")))
    /\ orange_group g2
       = list_sort (orange_group (analysis demo_images (glob_png demo_world "SP23")))
    /\ unknown_group g2 = unknown_group (analysis demo_images (glob_png demo_world "SP23"))
    /\ group_stats g2 = group_stats (analysis demo_images (glob_png demo_world "SP23")).
Proof.
  apply (corrector_after_analyzer_high_threshold demo_world _ "SP23" (-2 # 1)).
  - vm_compute. discriminate.
  - vm_compute. reflexivity.
Defined.



(** ** More on the grid and the cells *)

(** X16.  Both grids are tight: for [N >= 1] images there is at least one
    column and one row, [cols * rows] holds the [N] images and the last row
    is not empty ([cols * (rows - 1) < N]).  The landscape grid moreover has
    at least two columns and more columns than rows. *)
Theorem grids_are_tight (total_images : Z) :
  1 <= total_images ->
  exists pc pr lc lr,
    portrait_grid total_images = Ok (pc, pr)
    /\ landscape_grid total_images = Ok (lc, lr)
    /\ 1 <= pc /\ 1 <= pr /\ pc * (pr - 1) < total_images <= pc * pr
    /\ 1 <= lr /\ lc * (lr - 1) < total_images <= lc * lr
    /\ 2 <= lc /\ lr < lc.
Proof.
  intros HN.
  destruct (portrait_grid_covers _ HN) as (pc & pr & Hp & Hpc & _).
  destruct (landscape_grid_covers _ HN) as (lc & lr & Hl & Hlc & Hexit).
  pose proof (rows_cover_positive _ _ _ HN Hpc) as Hpr.
  pose proof (rows_cover_positive _ _ _ HN Hlc) as Hlr.
  rewrite too_many_rows_iff in Hexit.
  destruct Hpc as (Hpc1 & Hpc2). destruct Hlc as (Hlc1 & Hlc2).
  exists pc, pr, lc, lr. repeat split; try assumption; try lia.
Qed.

Lemma grids_are_tight_witness :
  exists pc pr lc lr,
    portrait_grid 10 = Ok (pc, pr)
    /\ landscape_grid 10 = Ok (lc, lr)
    /\ 1 <= pc /\ 1 <= pr /\ pc * (pr - 1) < 10 <= pc * pr
    /\ 1 <= lr /\ lc * (lr - 1) < 10 <= lc * lr
    /\ 2 <= lc /\ lr < lc.
Proof. apply (grids_are_tight 10). lia. Defined.




(** The grid inside a computed layout. *)
Lemma plan_portrait_grid (imgs : gmap string image) (image_paths : list string)
    (l : layout) :
  image_paths <> [] ->
  plan_portrait imgs image_paths = Ok l ->
  rows_cover (Z.of_nat (length image_paths)) (cols l) (rows l)
  /\ exists aspect_ratio,
       sample_aspect_ratio imgs image_paths = Ok aspect_ratio
       /\ cell_size A4 (cols l, rows l) aspect_ratio = Ok l.
Proof.
  intros Hne. apply length_positive in Hne. unfold plan_portrait.
  destruct (portrait_grid_covers _ Hne) as (c & r & -> & Hcover & _).
  cbn [mbind result_bind].
  destruct (sample_aspect_ratio imgs image_paths) as [ar | e |];
    cbn [mbind result_bind]; [| discriminate | discriminate].
  intros Hcell.
  destruct (cell_size_fits A4 _ c r ar l
              (rows_cover_positive _ _ _ Hne Hcover)
              (rows_cover_capacity _ _ _ Hcover) Hcell) as (-> & -> & _).
  split; [exact Hcover | eauto].
Qed.

Lemma plan_landscape_grid (imgs : gmap string image) (image_paths : list string)
    (l : layout) :
  image_paths <> [] ->
  plan_landscape imgs image_paths = Ok l ->
  rows_cover (Z.of_nat (length image_paths)) (cols l) (rows l)
  /\ exists aspect_ratio,
       sample_aspect_ratio imgs image_paths = Ok aspect_ratio
       /\ cell_size (landscape A4) (cols l, rows l) aspect_ratio = Ok l.
Proof.
  intros Hne. apply length_positive in Hne. unfold plan_landscape.
  destruct (landscape_grid_covers _ Hne) as (c & r & -> & Hcover & _).
  cbn [mbind result_bind].
  destruct (sample_aspect_ratio imgs image_paths) as [ar | e |];
    cbn [mbind result_bind]; [| discriminate | discriminate].
  intros Hcell.
  destruct (cell_size_fits (landscape A4) _ c r ar l
              (rows_cover_positive _ _ _ Hne Hcover)
              (rows_cover_capacity _ _ _ Hcover) Hcell) as (-> & -> & _).
  split; [exact Hcover | eauto].
Qed.



Lemma index_in_grid (total_images c r idx : Z) :
  rows_cover total_images c r ->
  0 <= idx < total_images ->
  0 <= idx / c < r /\ 0 <= idx mod c < c.
Proof.
  intros (Hc & _ & Hcap) [Hlo Hhi].
  split.
  - split; [apply Z.div_pos; lia |].
    apply Z.div_lt_upper_bound; lia.
  - apply Z.mod_pos_bound. lia.
Qed.

Lemma cells_distinct (c i j : Z) :
  1 <= c -> i / c = j / c -> i mod c = j mod c -> i = j.
Proof.
  intros Hc Hd Hm.
  rewrite (Z.div_mod i c), (Z.div_mod j c) by lia. rewrite Hd, Hm. reflexivity.
Qed.

(** X18.  Every image index [0 <= idx < N] is placed in a cell of the grid,
    in both orientations: its row [idx // cols] is below [rows] and its
    column [idx % cols] below [cols]; and two different indices never get the
    same cell. *)
Theorem images_placed_inside_grid
    (imgs : gmap string image) (image_paths : list string) (l : layout) :
  image_paths <> [] ->
  plan_portrait imgs image_paths = Ok l \/ plan_landscape imgs image_paths = Ok l ->
  (forall idx, 0 <= idx < Z.of_nat (length image_paths) ->
               0 <= idx / cols l < rows l /\ 0 <= idx mod cols l < cols l)
  /\ (forall i j, i / cols l = j / cols l -> i mod cols l = j mod cols l -> i = j).
Proof.
  intros Hne Hplan.
  assert (Hcover : rows_cover (Z.of_nat (length image_paths)) (cols l) (rows l)).
  { destruct Hplan as [Hp | Hl].
    - apply (plan_portrait_grid imgs image_paths l Hne Hp).
    - apply (plan_landscape_grid imgs image_paths l Hne Hl). }
  split.
  - intros idx Hidx. exact (index_in_grid _ _ _ _ Hcover Hidx).
  - intros i j. apply cells_distinct. destruct Hcover as [Hc _]. exact Hc.
Qed.

Lemma images_placed_inside_grid_witness :
  (forall idx, 0 <= idx < 1 -> 0 <= idx / 2 < 1 /\ 0 <= idx mod 2 < 2)
  /\ (forall i j, i / 2 = j / 2 -> i mod 2 = j mod 2 -> i = j).
Proof.
  apply (images_placed_inside_grid demo_images ["SP24/d.png"%string]
           (Layout 2 1
              ((available_height (landscape A4) - (inject_Z 1 - 1) * spacing) / inject_Z 1
               / (inject_Z 20 / inject_Z 1))
              ((available_height (landscape A4) - (inject_Z 1 - 1) * spacing) / inject_Z 1))).
  - discriminate.
  - right. vm_compute. reflexivity.
Defined.

(** ** More on the rendered page *)

Lemma place_image_fold (imgs : gmap string image) (size : Q * Q) (l : layout)
    (image_paths : list string) (c : canvas) (idx : Z) :
  fold_left (place_image imgs size l) image_paths (c, idx)
  = ({| pagesize := pagesize c;
        current_page := current_page c ++ draws_from imgs size l idx image_paths;
        pages := pages c |},
     idx + Z.of_nat (length image_paths)).
Proof.
  revert c idx. induction image_paths as [| p image_paths IH]; intros c idx.
  - cbn [fold_left draws_from length]. rewrite app_nil_r, Z.add_0_r.
    destruct c; reflexivity.
  - cbn [fold_left draws_from]. unfold place_image at 2, Image_open.
    destruct (imgs !! p) as [img |]; rewrite IH; cbn [length];
      unfold draw_on; cbn [pagesize current_page pages];
      rewrite <- ?app_assoc; f_equal; lia.
Qed.

Lemma render_page (imgs : gmap string image) (size : Q * Q) (l : layout)
    (image_paths : list string) (title : string) :
  pages (render imgs size l image_paths title)
  = [DrawTitle margin (snd size - margin) title
     :: DrawTotal margin (snd size - margin - 15) (Z.of_nat (length image_paths))
     :: draws_from imgs size l 0 image_paths].
Proof.
  unfold render. rewrite place_image_fold. reflexivity.
Qed.

Lemma draws_from_lookup (imgs : gmap string image) (size : Q * Q) (l : layout)
    (image_paths : list string) (idx : Z) (i : nat) (p : string) :
  image_paths !! i = Some p ->
  is_Some (imgs !! p) ->
  DrawImage p (cell_x l (idx + Z.of_nat i)) (cell_y size l (idx + Z.of_nat i))
            (img_width l) (img_height l)
  ∈ draws_from imgs size l idx image_paths.
Proof.
  revert idx i. induction image_paths as [| q image_paths IH]; intros idx i Hi Hopen.
  - discriminate Hi.
  - destruct i as [| i].
    + injection Hi as ->. cbn [draws_from]. destruct Hopen as [img ->].
      rewrite Z.add_0_r. apply list_elem_of_here.
    + cbn [lookup list_lookup] in Hi.
      replace (idx + Z.of_nat (S i)) with ((idx + 1) + Z.of_nat i) by lia.
      cbn [draws_from].
      destruct (imgs !! q); [apply list_elem_of_further |]; apply IH; assumption.
Qed.

Lemma draws_from_only_opened (imgs : gmap string image) (size : Q * Q) (l : layout)
    (image_paths : list string) (idx : Z) (d : draw) :
  d ∈ draws_from imgs size l idx image_paths ->
  exists (i : nat) (p : string),
    image_paths !! i = Some p /\ is_Some (imgs !! p)
    /\ d = DrawImage p (cell_x l (idx + Z.of_nat i)) (cell_y size l (idx + Z.of_nat i))
                     (img_width l) (img_height l).
Proof.
  revert idx. induction image_paths as [| q image_paths IH]; intros idx Hd.
  - cbn [draws_from] in Hd. by apply elem_of_nil in Hd.
  - cbn [draws_from] in Hd.
    assert (Hrest : d ∈ draws_from imgs size l (idx + 1) image_paths ->
                    exists (i : nat) (p : string),
                      (q :: image_paths) !! i = Some p /\ is_Some (imgs !! p)
                      /\ d = DrawImage p (cell_x l (idx + Z.of_nat i))
                                       (cell_y size l (idx + Z.of_nat i))
                                       (img_width l) (img_height l)).
    { intros H. destruct (IH _ H) as (i & p & Hi & Hopen & ->).
      exists (S i), p. split; [exact Hi | split; [exact Hopen |]].
      replace (idx + Z.of_nat (S i)) with (idx + 1 + Z.of_nat i) by lia. reflexivity. }
    destruct (imgs !! q) as [img |] eqn:Hq; [| exact (Hrest Hd)].
    apply elem_of_cons in Hd. destruct Hd as [-> | Hd]; [| exact (Hrest Hd)].
    exists 0%nat, q. split; [reflexivity | split; [eauto |]].
    rewrite Z.add_0_r. reflexivity.
Qed.

(** X19.  The saved file has one page.  It starts with the title and the
    total; an image that opens is drawn in the cell of its own position in
    the list (row [idx // cols], column [idx % cols]) whether or not the
    images before it opened, and nothing is drawn for an image that does not
    open: the cells of failed images stay blank and later images do not move
    up. *)
Theorem render_places_each_image_at_its_index
    (imgs : gmap string image) (size : Q * Q) (l : layout)
    (image_paths : list string) (title : string) :
  exists body,
    pages (render imgs size l image_paths title)
    = [DrawTitle margin (snd size - margin) title
       :: DrawTotal margin (snd size - margin - 15) (Z.of_nat (length image_paths))
       :: body]
    /\ (forall (i : nat) p,
          image_paths !! i = Some p -> is_Some (imgs !! p) ->
          DrawImage p (cell_x l (Z.of_nat i)) (cell_y size l (Z.of_nat i))
                    (img_width l) (img_height l) ∈ body)
    /\ (forall d, d ∈ body ->
          exists (i : nat) p,
            image_paths !! i = Some p /\ is_Some (imgs !! p)
            /\ d = DrawImage p (cell_x l (Z.of_nat i)) (cell_y size l (Z.of_nat i))
                             (img_width l) (img_height l)).
Proof.
  exists (draws_from imgs size l 0 image_paths).
  split; [apply render_page |].
  split.
  - intros i p Hi Hopen.
    exact (draws_from_lookup imgs size l image_paths 0 i p Hi Hopen).
  - intros d Hd.
    exact (draws_from_only_opened imgs size l image_paths 0 d Hd).
Qed.

Lemma create_collage_pdf_portrait_Ok (w : world) (first : string) (rest : list string)
    (output_pdf title : string) (img : image) :
  images w !! first = Some img ->
  0 < width img -> 0 < height img ->
  exists c,
    create_collage_pdf_portrait w (first :: rest) output_pdf title
    = Ok (write_pdf w output_pdf c)
    /\ length (pages c) = 1%nat.
Proof.
  intros Himg Hw Hh.
  destruct (plans_total (images w) first rest img Himg Hw Hh) as (lp & _ & Hp & _).
  unfold create_collage_pdf_portrait. rewrite Hp. cbn [mbind result_bind].
  eexists. split; [reflexivity | apply render_one_page].
Qed.

Lemma create_collage_pdf_landscape_Ok (w : world) (first : string) (rest : list string)
    (output_pdf title : string) (img : image) :
  images w !! first = Some img ->
  0 < width img -> 0 < height img ->
  exists c,
    create_collage_pdf_landscape w (first :: rest) output_pdf title
    = Ok (write_pdf w output_pdf c)
    /\ length (pages c) = 1%nat.
Proof.
  intros Himg Hw Hh.
  destruct (plans_total (images w) first rest img Himg Hw Hh) as (_ & ll & _ & Hl).
  unfold create_collage_pdf_landscape. rewrite Hl. cbn [mbind result_bind].
  eexists. split; [reflexivity | apply render_one_page].
Qed.

Lemma sample_unreadable (imgs : gmap string image) (first : string) (rest : list string) :
  imgs !! first = None ->
  plan_portrait imgs (first :: rest) = Raise UnidentifiedImageError
  /\ plan_landscape imgs (first :: rest) = Raise UnidentifiedImageError.
Proof.
  intros Hnone.
  assert (HN : 1 <= Z.of_nat (length (first :: rest))) by (cbn [length]; lia).
  unfold plan_portrait, plan_landscape.
  destruct (portrait_grid_covers _ HN) as (pc & pr & -> & _).
  destruct (landscape_grid_covers _ HN) as (lc & lr & -> & _).
  cbn [mbind result_bind]. unfold sample_aspect_ratio, Image_open. rewrite Hnone.
  split; reflexivity.
Qed.

(** X20.  The three outcomes of [create_collage_pdf_portrait] and
    [create_collage_pdf_landscape]: on an empty list nothing is saved and
    the file system is unchanged; when the first image does not open the
    call raises (that open is outside the [try]) and nothing is saved,
    however many of the other images are fine; when the first image opens
    with a positive width and height exactly one file of one page is saved
    under the given name, for a list of any length. *)
Theorem create_collage_outcomes
    (w : world) (image_paths : list string) (output_pdf title : string) :
  match image_paths with
  | [] =>
    create_collage_pdf_portrait w image_paths output_pdf title = Ok w
    /\ create_collage_pdf_landscape w image_paths output_pdf title = Ok w
  | first :: _ =>
    match images w !! first with
    | None =>
      create_collage_pdf_portrait w image_paths output_pdf title
      = Raise UnidentifiedImageError
      /\ create_collage_pdf_landscape w image_paths output_pdf title
         = Raise UnidentifiedImageError
    | Some img =>
      0 < width img -> 0 < height img ->
      exists cp cl,
        create_collage_pdf_portrait w image_paths output_pdf title
        = Ok (write_pdf w output_pdf cp)
        /\ create_collage_pdf_landscape w image_paths output_pdf title
           = Ok (write_pdf w output_pdf cl)
        /\ length (pages cp) = 1%nat /\ length (pages cl) = 1%nat
    end
  end.
Proof.
  destruct image_paths as [| first rest]; [split; reflexivity |].
  destruct (images w !! first) as [img |] eqn:Himg.
  - intros Hw Hh.
    destruct (create_collage_pdf_portrait_Ok w first rest output_pdf title img Himg Hw Hh)
      as (cp & Hp & Hp1).
    destruct (create_collage_pdf_landscape_Ok w first rest output_pdf title img Himg Hw Hh)
      as (cl & Hl & Hl1).
    exists cp, cl. auto.
  - destruct (sample_unreadable (images w) first rest Himg) as [Hp Hl].
    unfold create_collage_pdf_portrait, create_collage_pdf_landscape.
    rewrite Hp, Hl. split; reflexivity.
Qed.

(** ** [process_year] *)

Lemma add_pdfs_nil (w : world) : add_pdfs w [] = w.
Proof. destruct w. unfold add_pdfs. cbn. by rewrite app_nil_r. Qed.

Lemma add_pdfs_app (w : world) (a b : list (string * canvas)) :
  add_pdfs (add_pdfs w a) b = add_pdfs w (a ++ b).
Proof. unfold add_pdfs. cbn. by rewrite app_assoc. Qed.

Section collages.
Context (create : world -> list string -> string -> string -> result world).
Hypothesis create_Ok :
  forall w first rest output_pdf title img,
    images w !! first = Some img -> 0 < width img -> 0 < height img ->
    exists c, create w (first :: rest) output_pdf title = Ok (write_pdf w output_pdf c)
              /\ length (pages c) = 1%nat.

Lemma create_group (w : world) (group : list string) (output_pdf title : string) :
  positive_sizes (images w) ->
  Forall (fun p => is_Some (images w !! p)) group ->
  exists new,
    match group with
    | [] => Ok w
    | _ :: _ => create w group output_pdf title
    end = Ok (add_pdfs w new)
    /\ length new = match group with [] => 0%nat | _ :: _ => 1%nat end
    /\ Forall one_page new.
Proof.
  intros Hpos Hopen. destruct group as [| first rest].
  - exists []. rewrite add_pdfs_nil. split; [reflexivity | split; [reflexivity | constructor]].
  - apply Forall_cons in Hopen. destruct Hopen as [[img Himg] _].
    destruct (Hpos first img Himg) as [Hw Hh].
    destruct (create_Ok w first rest output_pdf title img Himg Hw Hh) as (c & -> & Hc).
    exists [(output_pdf, c)]. split; [reflexivity | split; [reflexivity |]].
    constructor; [exact Hc | constructor].
Qed.

Lemma collages_of_Ok (w : world) (results : groups)
    (output_folder year_code suffix : string) :
  positive_sizes (images w) ->
  Forall (fun p => is_Some (images w !! p)) (green_group results ++ orange_group results) ->
  exists new,
    collages_of create w results output_folder year_code suffix = Ok (add_pdfs w new)
    /\ length new = collage_count results
    /\ Forall one_page new.
Proof.
  intros Hpos Hopen. apply Forall_app in Hopen. destruct Hopen as [Hg Ho].
  unfold collages_of, collage_count.
  destruct (create_group w (green_group results)
              (pdf_name output_folder "speldesignstudenter" year_code suffix)
              ("Speldesignstudenter " +:+ year_code)%string Hpos Hg)
    as (new1 & -> & Hlen1 & Hone1).
  cbn [mbind result_bind].
  destruct (create_group (add_pdfs w new1) (orange_group results)
              (pdf_name output_folder "spelgrafikstudenter" year_code suffix)
              ("Spelgrafikstudenter " +:+ year_code)%string Hpos Ho)
    as (new2 & -> & Hlen2 & Hone2).
  exists (new1 ++ new2). rewrite add_pdfs_app, length_app, Hlen1, Hlen2.
  split; [reflexivity | split; [reflexivity |]].
  apply Forall_app. split; assumption.
Qed.
End collages.

Lemma analysis_members_open (imgs : gmap string image) (png_files : list string) :
  Forall (fun p => is_Some (imgs !! p))
         (green_group (analysis imgs png_files) ++ orange_group (analysis imgs png_files)).
Proof.
  cbn [analysis green_group orange_group]. apply Forall_forall. intros p Hp.
  assert (Hl : label_of imgs p <> Unknown).
  { apply elem_of_app in Hp. destruct Hp as [Hp | Hp];
      apply list_elem_of_filter in Hp; destruct Hp as [E _]; rewrite E; discriminate. }
  destruct (label_of_readable imgs p Hl) as (img & Himg & _). eauto.
Qed.

Lemma corrected_members_open (imgs : gmap string image) (threshold : Q) (g : groups) :
  Forall (fun p => is_Some (imgs !! p)) (green_group g ++ orange_group g) ->
  Forall (fun p => is_Some (imgs !! p))
         (green_group (corrected imgs threshold g) ++ orange_group (corrected imgs threshold g)).
Proof.
  rewrite !Forall_forall. intros Hopen p Hp. apply Hopen.
  cbn [corrected green_group orange_group] in Hp.
  rewrite !elem_of_app, !elem_of_list_sort, elem_of_app in Hp.
  unfold moved_members, kept_members in Hp. rewrite !list_elem_of_filter in Hp.
  rewrite elem_of_app. tauto.
Qed.

Lemma collage_count_length (g g' : groups) :
  length (green_group g') = length (green_group g) ->
  length (orange_group g') = length (orange_group g) ->
  collage_count g' = collage_count g.
Proof.
  unfold collage_count. intros Hg Ho.
  destruct (green_group g), (green_group g'), (orange_group g), (orange_group g');
    try discriminate; reflexivity.
Qed.

(** The analysis and, when asked for, the correction, as [process_year]
    runs them (lines 436-445): the world they leave and the collections
    held in memory for the collages. *)
Lemma process_year_stage (w : world) (year_folder : string) (png_files : list string)
    (auto_correct : bool) (threshold : Q) :
  folders w !! year_folder = Some png_files ->
  year_folder ∉ read_only w ->
  exists results,
    ('(w1, results) ← analyze_portraits w year_folder;
     if auto_correct then
       '(w2, moved) ← apply_auto_corrections w1 year_folder threshold;
       if 0 <? moved then
         results ← read_artifact w2 year_folder; Ok (w2, results)
       else Ok (w2, results)
     else Ok (w1, results))
    = Ok (set_artifact w year_folder
            (final_artifact (images w) png_files auto_correct threshold), results)
    /\ collage_count results
       = collage_count (final_artifact (images w) png_files auto_correct threshold)
    /\ Forall (fun p => is_Some (images w !! p))
              (green_group results ++ orange_group results).
Proof.
  intros Hdir Hrw.
  set (g := analysis (images w) png_files).
  assert (Han : analyze_portraits w year_folder = Ok (set_artifact w year_folder g, g)).
  { assert (Hw : write_artifact w year_folder g = Ok (set_artifact w year_folder g))
      by (apply write_artifact_Ok; eauto).
    rewrite analyze_portraits_spec. unfold glob_png. rewrite Hdir.
    change (default [] (Some png_files)) with png_files.
    change (analysis (images w) png_files) with g.
    rewrite Hw. reflexivity. }
  rewrite Han. cbn [mbind result_bind].
  pose proof (analysis_members_open (images w) png_files) as Hopen. fold g in Hopen.
  destruct auto_correct; cbn [final_artifact]; fold g.
  2: { exists g. split; [reflexivity | split; [reflexivity | exact Hopen]]. }
  set (w1 := set_artifact w year_folder g).
  assert (Hg : artifacts w1 !! year_folder = Some g) by apply lookup_insert_eq.
  set (g' := corrected (images w) threshold g).
  assert (Hrun : apply_auto_corrections w1 year_folder threshold
                 = Ok (set_artifact w1 year_folder g',
                       Z.of_nat (length (moved_members (images w) threshold g)))).
  { rewrite (apply_auto_corrections_spec _ _ _ _ Hg).
    change (images w1) with (images w). fold g'.
    assert (Hw : write_artifact w1 year_folder g' = Ok (set_artifact w1 year_folder g')).
    { apply write_artifact_Ok. change (folders w1) with (folders w).
      change (read_only w1) with (read_only w). eauto. }
    rewrite Hw. reflexivity. }
  rewrite Hrun. cbn [mbind result_bind].
  assert (Hsame : set_artifact w1 year_folder g' = set_artifact w year_folder g').
  { unfold w1, set_artifact. cbn [folders images artifacts read_only pdfs].
    by rewrite insert_insert_eq. }
  rewrite Hsame.
  destruct (Z.ltb_spec 0 (Z.of_nat (length (moved_members (images w) threshold g))))
    as [Hmoved | Hnone].
  - exists g'.
    assert (Hread : read_artifact (set_artifact w year_folder g') year_folder = Ok g').
    { unfold read_artifact, set_artifact. cbn [artifacts]. by rewrite lookup_insert_eq. }
    rewrite Hread. cbn [mbind result_bind].
    split; [reflexivity | split; [reflexivity |]].
    apply corrected_members_open, Hopen.
  - exists g. split; [reflexivity | split; [| exact Hopen]].
    assert (Hm : moved_members (images w) threshold g = [])
      by (destruct (moved_members (images w) threshold g); [reflexivity | simpl in Hnone; lia]).
    assert (Hk : length (kept_members (images w) threshold g) = length (orange_group g)).
    { pose proof (filter_split_perm (qualifies (images w) threshold) (orange_group g)) as Hs.
      apply Permutation_length in Hs. rewrite length_app in Hs.
      unfold moved_members in Hm. rewrite Hm in Hs. cbn [length] in Hs.
      unfold kept_members. lia. }
    symmetry. apply collage_count_length; unfold g'; cbn [corrected green_group orange_group];
      rewrite list_sort_length.
    + by rewrite Hm, app_nil_r.
    + exact Hk.
Qed.


Lemma demo_positive_sizes : positive_sizes (images demo_world).
Proof.
  intros p img Hp. cbn [demo_world images] in Hp. unfold demo_images in Hp.
  repeat (apply lookup_insert_Some in Hp; destruct Hp as [[_ <-] | [_ Hp]];
          [split; reflexivity |]).
  apply lookup_singleton_Some in Hp. destruct Hp as [_ <-]. split; reflexivity.
Qed.


(** ** More on the loop of [main] *)

Lemma create_collage_pdf_portrait_folders (w w' : world) (image_paths : list string)
    (output_pdf title : string) :
  create_collage_pdf_portrait w image_paths output_pdf title = Ok w' ->
  folders w' = folders w.
Proof.
  unfold create_collage_pdf_portrait. destruct image_paths as [| first rest].
  - intros [= <-]. reflexivity.
  - destruct (plan_portrait (images w) (first :: rest)) as [l | e |];
      cbn [mbind result_bind]; [| discriminate | discriminate].
    intros [= <-]. reflexivity.
Qed.

Lemma create_collage_pdf_landscape_folders (w w' : world) (image_paths : list string)
    (output_pdf title : string) :
  create_collage_pdf_landscape w image_paths output_pdf title = Ok w' ->
  folders w' = folders w.
Proof.
  unfold create_collage_pdf_landscape. destruct image_paths as [| first rest].
  - intros [= <-]. reflexivity.
  - destruct (plan_landscape (images w) (first :: rest)) as [l | e |];
      cbn [mbind result_bind]; [| discriminate | discriminate].
    intros [= <-]. reflexivity.
Qed.

Lemma collages_of_folders
    (create : world -> list string -> string -> string -> result world)
    (w w' : world) (results : groups) (output_folder year_code suffix : string) :
  (forall w0 w1 l out t, create w0 l out t = Ok w1 -> folders w1 = folders w0) ->
  collages_of create w results output_folder year_code suffix = Ok w' ->
  folders w' = folders w.
Proof.
  intros Hcreate. unfold collages_of.
  destruct (match green_group results with
            | [] => Ok w
            | _ :: _ => create w (green_group results) _ _
            end) as [w1 | e |] eqn:H1; cbn [mbind result_bind];
    [| discriminate | discriminate].
  assert (Hw1 : folders w1 = folders w).
  { destruct (green_group results); [by injection H1 as <- | exact (Hcreate _ _ _ _ _ H1)]. }
  intros H2. rewrite <- Hw1.
  destruct (orange_group results); [by injection H2 as <- | exact (Hcreate _ _ _ _ _ H2)].
Qed.

Lemma apply_auto_corrections_folders (w w' : world) (year_folder : string)
    (threshold : Q) (n : Z) :
  apply_auto_corrections w year_folder threshold = Ok (w', n) -> folders w' = folders w.
Proof.
  intros Hrun. destruct (artifacts w !! year_folder) as [g |] eqn:Hg.
  - destruct (apply_auto_corrections_Ok _ _ _ _ _ _ Hg Hrun) as (_ & _ & -> & _).
    reflexivity.
  - unfold apply_auto_corrections, read_artifact in Hrun. rewrite Hg in Hrun.
    discriminate Hrun.
Qed.

(** Whatever [process_year] does, it creates and removes no batch folder and
    no PNG file. *)
Lemma process_year_folders (w w' : world) (year_folder year_code output_folder : string)
    (auto_correct : bool) (threshold : Q) (o : orientation) :
  process_year w year_folder year_code output_folder auto_correct threshold o = Ok w' ->
  folders w' = folders w.
Proof.
  unfold process_year.
  destruct (analyze_portraits w year_folder) as [[w1 g] | e |] eqn:Han;
    cbn [mbind result_bind]; [| discriminate | discriminate].
  assert (H1 : folders w1 = folders w).
  { destruct (analyze_portraits_Ok _ _ _ _ Han) as (pngs & _ & _ & _ & ->). reflexivity. }
  destruct (if auto_correct then _ else _) as [[w2 results] | e |] eqn:Hcorr;
    cbn [mbind result_bind]; [| discriminate | discriminate].
  assert (H2 : folders w2 = folders w1).
  { destruct auto_correct; [| by injection Hcorr as <- _].
    destruct (apply_auto_corrections w1 year_folder threshold) as [[w1' moved] | e |] eqn:Hrun;
      cbn [mbind result_bind] in Hcorr; [| discriminate Hcorr | discriminate Hcorr].
    apply apply_auto_corrections_folders in Hrun. rewrite <- Hrun.
    destruct (0 <? moved); [| by injection Hcorr as <- _].
    destruct (read_artifact w1' year_folder); cbn [mbind result_bind] in Hcorr;
      [by injection Hcorr as <- _ | discriminate Hcorr | discriminate Hcorr]. }
  destruct (match o with
            | Portrait => _ | Landscape => Ok w2 | Both => _
            end) as [w3 | e |] eqn:Hport; cbn [mbind result_bind];
    [| discriminate | discriminate].
  assert (H3 : folders w3 = folders w2).
  { destruct o; [| by injection Hport as <- |];
      exact (collages_of_folders _ _ _ _ _ _ _ create_collage_pdf_portrait_folders Hport). }
  intros Hland. rewrite <- H1, <- H2, <- H3.
  destruct o; [by injection Hland as <- | |];
    exact (collages_of_folders _ _ _ _ _ _ _ create_collage_pdf_landscape_folders Hland).
Qed.

Lemma skipped_folders (w w' : world) (batch : string * string) :
  folders w' = folders w -> skipped w' batch <-> skipped w batch.
Proof. intros E. unfold skipped. by rewrite E. Qed.

(** X22.  A requested batch whose folder is missing or lists no PNG file
    changes nothing: the run, whether it ends well or in an exception, is the
    run over the request with those batches left out. *)
Theorem main_loop_ignores_skipped_batches
    (w : world) (years_to_process : list (string * string))
    (output_folder : string) (auto_correct : bool) (threshold : Z) (o : orientation) :
  main_loop w years_to_process output_folder auto_correct threshold o
  = main_loop w (filter (fun batch => ~ skipped w batch) years_to_process)
      output_folder auto_correct threshold o.
Proof.
  revert w. induction years_to_process as [| [year_folder year_num] rest IH]; intros w.
  - reflexivity.
  - rewrite filter_cons.
    destruct (decide (~ skipped w (year_folder, year_num))) as [Hlive | Hskip].
    + cbn [main_loop]. unfold skipped in Hlive. cbn [fst] in Hlive.
      destruct (folders w !! year_folder) as [[| png pngs] |] eqn:Hdir; try tauto.
      destruct (process_year w year_folder year_folder output_folder auto_correct
                  (inject_Z threshold) o) as [w1 | e |] eqn:Hrun;
        cbn [mbind result_bind]; [| reflexivity | reflexivity].
      rewrite IH. f_equal. apply list_filter_iff. intros batch.
      apply process_year_folders in Hrun.
      by rewrite (skipped_folders w w1 batch Hrun).
    + assert (Hs : skipped w (year_folder, year_num))
        by (destruct (decide (skipped w (year_folder, year_num))); tauto).
      rewrite <- IH.
      apply (main_loop_skips w [(year_folder, year_num)] rest).
      constructor; [exact Hs | constructor].
Qed.

Lemma process_year_run
    (w : world) (year_folder year_code output_folder : string) (png_files : list string)
    (auto_correct : bool) (threshold : Q) (o : orientation) :
  folders w !! year_folder = Some png_files ->
  year_folder ∉ read_only w ->
  positive_sizes (images w) ->
  exists g new,
    process_year w year_folder year_code output_folder auto_correct threshold o
    = Ok (add_pdfs (set_artifact w year_folder g) new).
Proof.
  intros Hdir Hrw Hpos.
  destruct (process_year_stage w year_folder png_files auto_correct threshold Hdir Hrw)
    as (results & Hstage & _ & Hopen).
  set (w2 := set_artifact w year_folder
               (final_artifact (images w) png_files auto_correct threshold)) in *.
  exists (final_artifact (images w) png_files auto_correct threshold). fold w2.
  pose proof (collages_of_Ok create_collage_pdf_portrait create_collage_pdf_portrait_Ok)
    as Hport.
  pose proof (collages_of_Ok create_collage_pdf_landscape create_collage_pdf_landscape_Ok)
    as Hland.
  unfold process_year.
  destruct (analyze_portraits w year_folder) as [[w1 g] | e |];
    cbn [mbind result_bind] in Hstage |- *; [| discriminate Hstage | discriminate Hstage].
  rewrite Hstage. cbn [mbind result_bind].
  destruct o.
  - destruct (Hport w2 results output_folder year_code ""%string Hpos Hopen)
      as (new & -> & _). cbn [mbind result_bind]. eauto.
  - cbn [mbind result_bind].
    destruct (Hland w2 results output_folder year_code ""%string Hpos Hopen)
      as (new & -> & _). eauto.
  - destruct (Hport w2 results output_folder year_code "_portrait"%string Hpos Hopen)
      as (new1 & -> & _). cbn [mbind result_bind].
    destruct (Hland (add_pdfs w2 new1) results output_folder year_code "_landscape"%string
                Hpos Hopen) as (new2 & -> & _).
    rewrite add_pdfs_app. eauto.
Qed.

(** X23.  When none of the requested folders is write-protected and the
    images have a positive size, the whole run succeeds whatever the batches
    hold: unreadable files, empty bands and empty collections stop nothing.
    It leaves folders and images as they were, and an artifact in every
    requested folder that lists a PNG file. *)
Theorem main_loop_succeeds
    (w : world) (years_to_process : list (string * string))
    (output_folder : string) (auto_correct : bool) (threshold : Z) (o : orientation) :
  (forall batch, batch ∈ years_to_process -> fst batch ∉ read_only w) ->
  positive_sizes (images w) ->
  exists w',
    main_loop w years_to_process output_folder auto_correct threshold o = Ok w'
    /\ folders w' = folders w /\ images w' = images w /\ read_only w' = read_only w
    /\ (forall batch, batch ∈ years_to_process -> ~ skipped w batch ->
                      is_Some (artifacts w' !! fst batch))
    /\ (forall year_folder, is_Some (artifacts w !! year_folder) ->
                            is_Some (artifacts w' !! year_folder)).
Proof.
  revert w. induction years_to_process as [| [year_folder year_num] rest IH];
    intros w Hrw Hpos.
  - exists w. repeat split; try reflexivity; [| tauto].
    intros batch Hin. by apply elem_of_nil in Hin.
  - assert (Hrest : forall batch, batch ∈ rest -> fst batch ∉ read_only w)
      by (intros batch Hin; apply Hrw; by apply list_elem_of_further).
    cbn [main_loop].
    destruct (folders w !! year_folder) as [[| png pngs] |] eqn:Hdir.
    + destruct (IH w Hrest Hpos) as (w' & -> & Hf & Hi & Hr & Hnew & Hold).
      exists w'. repeat split; try assumption.
      intros batch Hin Hlive. apply elem_of_cons in Hin. destruct Hin as [-> | Hin].
      * exfalso. apply Hlive. right. exact Hdir.
      * exact (Hnew batch Hin Hlive).
    + assert (Hhead : year_folder ∉ read_only w)
        by (apply (Hrw (year_folder, year_num)); apply list_elem_of_here).
      destruct (process_year_run w year_folder year_folder output_folder (png :: pngs)
                  auto_correct (inject_Z threshold) o Hdir Hhead Hpos) as (g & new & ->).
      cbn [mbind result_bind].
      set (w1 := add_pdfs (set_artifact w year_folder g) new).
      destruct (IH w1 Hrest Hpos) as (w' & -> & Hf & Hi & Hr & Hnew & Hold).
      exists w'. repeat split; try assumption.
      * intros batch Hin Hlive. apply elem_of_cons in Hin. destruct Hin as [-> | Hin].
        -- apply Hold. unfold w1, add_pdfs, set_artifact. cbn [artifacts fst].
           rewrite lookup_insert_eq. eauto.
        -- exact (Hnew batch Hin Hlive).
      * intros other Hother. apply Hold. unfold w1, add_pdfs, set_artifact. cbn [artifacts].
        destruct (decide (year_folder = other)) as [-> | Hne].
        -- rewrite lookup_insert_eq. eauto.
        -- by rewrite lookup_insert_ne.
    + destruct (IH w Hrest Hpos) as (w' & -> & Hf & Hi & Hr & Hnew & Hold).
      exists w'. repeat split; try assumption.
      intros batch Hin Hlive. apply elem_of_cons in Hin. destruct Hin as [-> | Hin].
      * exfalso. apply Hlive. left. exact Hdir.
      * exact (Hnew batch Hin Hlive).
Qed.

Lemma main_loop_succeeds_witness :
  exists w',
    main_loop demo_world [("SP22", "22"); ("SP23", "23"); ("SP24", "24")]%string
      "Collages" true (-10) Both = Ok w'
    /\ folders w' = folders demo_world /\ images w' = images demo_world
    /\ read_only w' = read_only demo_world
    /\ (forall batch, batch ∈ [("SP22", "22"); ("SP23", "23"); ("SP24", "24")]%string ->
                      ~ skipped demo_world batch -> is_Some (artifacts w' !! fst batch))
    /\ (forall year_folder, is_Some (artifacts demo_world !! year_folder) ->
                            is_Some (artifacts w' !! year_folder)).
Proof.
  apply (main_loop_succeeds demo_world
           [("SP22", "22"); ("SP23", "23"); ("SP24", "24")]%string "Collages" true (-10) Both).
  - intros batch _. vm_compute. set_solver.
  - exact demo_positive_sizes.
Defined.

(** ** The initial grid *)

(** X24.  The initial column count is the ceiling of the square root of
    [N * page_aspect]: [(cols - 1)^2 < N * page_aspect <= cols^2], and the
    initial row count is the ceiling of [N / cols], on the portrait and on
    the landscape page. *)
Theorem initial_grid_is_ceiling_of_root (size : Q * Q) (total_images : Z) :
  size = A4 \/ size = landscape A4 ->
  1 <= total_images ->
  exists c r,
    initial_grid size total_images = Ok (c, r)
    /\ 1 <= c
    /\ (inject_Z ((c - 1) * (c - 1))
        < inject_Z total_images * (available_width size / available_height size)
        <= inject_Z (c * c))%Q
    /\ c * (r - 1) < total_images <= c * r.
Proof.
  intros Hsize HN.
  pose proof (page_aspect_positive size total_images Hsize HN) as Hpos.
  pose proof (ceil_sqrt_positive _ Hpos) as Hc.
  pose proof (ceil_sqrt_bounds _ Hpos) as Hb.
  unfold initial_grid.
  destruct (ceil_div_covers total_images _ Hc) as (r & -> & _ & Hr).
  cbn [mbind result_bind]. eexists _, r.
  split; [reflexivity | split; [exact Hc | split; [exact Hb | exact Hr]]].
Qed.

Lemma initial_grid_is_ceiling_of_root_witness :
  exists c r,
    initial_grid A4 10 = Ok (c, r)
    /\ 1 <= c
    /\ (inject_Z ((c - 1) * (c - 1))
        < inject_Z 10 * (available_width A4 / available_height A4)
        <= inject_Z (c * c))%Q
    /\ c * (r - 1) < 10 <= c * r.
Proof.
  apply (initial_grid_is_ceiling_of_root A4 10).
  - left. reflexivity.
  - lia.
Defined.

(** ** Running the stages again *)

(** X25.  The analyzer overwrites the artifact wholesale: run again after the
    corrector, on the same files, it puts back exactly the artifact of its
    first run, so the corrections are not kept. *)
Theorem analyze_portraits_overwrites_corrections
    (w w1 w2 : world) (year_folder : string) (threshold : Q) (g : groups) (n : Z) :
  analyze_portraits w year_folder = Ok (w1, g) ->
  apply_auto_corrections w1 year_folder threshold = Ok (w2, n) ->
  analyze_portraits w2 year_folder = Ok (w1, g).
Proof.
  intros Han Hrun.
  destruct (analyze_portraits_Ok _ _ _ _ Han) as (pngs & Hdir & Hrw & Hgeq & ->).
  assert (Hg : artifacts (set_artifact w year_folder g) !! year_folder = Some g)
    by apply lookup_insert_eq.
  destruct (apply_auto_corrections_Ok _ _ _ _ _ _ Hg Hrun) as (_ & _ & -> & _).
  rewrite analyze_portraits_spec. unfold glob_png.
  cbn [set_artifact folders images]. rewrite Hdir.
  change (default [] (Some pngs)) with pngs. rewrite <- Hgeq.
  assert (Hw : write_artifact
                 (set_artifact (set_artifact w year_folder g) year_folder
                    (corrected (images w) threshold g)) year_folder g
               = Ok (set_artifact w year_folder g)).
  { apply write_artifact_Ok. cbn [set_artifact folders read_only].
    split; [eauto | split; [exact Hrw |]].
    unfold set_artifact. cbn [folders images artifacts read_only pdfs].
    by rewrite !insert_insert_eq. }
  unfold set_artifact in Hw |- *. cbn [folders images artifacts read_only pdfs] in Hw |- *.
  rewrite Hw. reflexivity.
Qed.

Lemma analyze_portraits_overwrites_corrections_witness :
  analyze_portraits
    (set_artifact
       (set_artifact demo_world "SP23" (analysis demo_images (glob_png demo_world "SP23")))
       "SP23"
       (corrected demo_images (-10 # 1) (analysis demo_images (glob_png demo_world "SP23"))))
    "SP23"
  = Ok (set_artifact demo_world "SP23" (analysis demo_images (glob_png demo_world "SP23")),
        analysis demo_images (glob_png demo_world "SP23")).
Proof.
  apply (analyze_portraits_overwrites_corrections demo_world _ _ "SP23" (-10 # 1) _ 1).
  - vm_compute. reflexivity.
  - vm_compute. reflexivity.
Defined.

(** ** The two samplings of the bottom band *)



(** ** What the two stages leave together *)





